(** * A file-backed page store: model and verification

    Shallow embedding of [src/utils/fileStorage.js]: the path resolver
    ([getSafeFilePath]), the JSON codec used by [readPage] and [writePage]
    ([JSON.parse] and [JSON.stringify (_, null, 2)]), the atomic write sequence,
    listing and search, and import / restore.

    Conventions of the model.
    - A JavaScript string is a [string]; one [ascii] stands for one code unit,
      so the model covers the code units 0..255.
    - A JavaScript value that travels through the store is a [JSON] value;
      [undefined] is [None] in an [option JSON].  Numbers are the safe
      integers (of absolute value at most 2^53 - 1), the numbers a double
      holds exactly; fractions and exponents are outside the model.
    - An object is the list of its own properties in insertion order; the
      reordering of integer-like keys by the engine is not modelled (the
      documents of the store have none).
    - [readdir] lists the directory in the enumeration order of the map that
      holds it.
    - A thrown error is the [Err] case of [Result]; an [Error] is identified by
      its [code] (or by its [name] for the built-in errors).
    - The file system is the content of the storage directory, and the clock,
      the random generator and I/O failures are an explicit oracle. *)

From Stdlib Require Import String Ascii ZArith List Lia Bool Permutation Sorted.
From Stdlib Require Import Decimal DecimalFacts DecimalPos DecimalN DecimalNat DecimalString.
From stdpp Require Import gmap strings list.



(* ===================================================================== *)
(** * Part I: the model                                                   *)
(* ===================================================================== *)

(** ** Characters and strings *)

Definition LF : ascii := "010"%char.
Definition CR : ascii := "013"%char.
Definition TAB : ascii := "009"%char.
Definition BS : ascii := "008"%char.
Definition FF : ascii := "012"%char.
Definition DQ : ascii := "034"%char.
Definition BSL : ascii := "092"%char.

Definition char_code (c : ascii) : N := N_of_ascii c.

Definition in_range (lo hi : N) (c : ascii) : bool :=
  (lo <=? char_code c)%N && (char_code c <=? hi)%N.

(** [WhiteSpace] and [LineTerminator] of ECMAScript among the code units
    0..255: TAB, LF, VT, FF, CR, SP and NBSP.  [String.prototype.trim] removes
    these. *)
Definition is_js_space (c : ascii) : bool :=
  in_range 9 13 c || (char_code c =? 32)%N || (char_code c =? 160)%N.

Fixpoint trimStart (s : string) : string :=
  match s with
  | String c r => if is_js_space c then trimStart r else s
  | EmptyString => EmptyString
  end.

Fixpoint trimEnd (s : string) : string :=
  match s with
  | String c r =>
      match trimEnd r with
      | EmptyString => if is_js_space c then EmptyString else String c EmptyString
      | r' => String c r'
      end
  | EmptyString => EmptyString
  end.

(** [String.prototype.trim] *)
Definition trim (s : string) : string := trimEnd (trimStart s).

(** [String.prototype.toLowerCase] on the code units 0..255: A-Z and the
    Latin-1 capitals (0xC0..0xDE without the multiplication sign 0xD7). *)
Definition lower_char (c : ascii) : ascii :=
  if in_range 65 90 c || (in_range 192 222 c && negb (char_code c =? 215)%N)
  then ascii_of_N (char_code c + 32)
  else c.

Fixpoint toLowerCase (s : string) : string :=
  match s with
  | String c r => String (lower_char c) (toLowerCase r)
  | EmptyString => EmptyString
  end.

Fixpoint is_prefix (p s : string) : bool :=
  match p, s with
  | EmptyString, _ => true
  | String a p', String b s' => Ascii.eqb a b && is_prefix p' s'
  | String _ _, EmptyString => false
  end.

(** [String.prototype.startsWith] *)
Definition startsWith (s p : string) : bool := is_prefix p s.

(** [String.prototype.includes] *)
Fixpoint includes (s needle : string) : bool :=
  startsWith s needle ||
  match s with
  | String _ r => includes r needle
  | EmptyString => false
  end.

(** [strip_suffix suf s] is [Some p] when [s = p ++ suf]. *)
Fixpoint strip_suffix (suf s : string) : option string :=
  if (s =? suf)%string then Some EmptyString
  else match s with
       | String c r => option_map (String c) (strip_suffix suf r)
       | EmptyString => None
       end.

(** [String.prototype.endsWith] *)
Definition endsWith (s suf : string) : bool :=
  match strip_suffix suf s with Some _ => true | None => false end.

Fixpoint drop_prefix (p s : string) : option string :=
  match p, s with
  | EmptyString, _ => Some s
  | String a p', String b s' => if Ascii.eqb a b then drop_prefix p' s' else None
  | String _ _, EmptyString => None
  end.

Fixpoint string_forallb (f : ascii -> bool) (s : string) : bool :=
  match s with
  | String c r => f c && string_forallb f r
  | EmptyString => true
  end.

(** ** JSON values *)

Unset Elimination Schemes.
Inductive JSON : Type :=
| JNull
| JBool (b : bool)
| JNum (n : Z)
| JStr (s : string)
| JArr (items : list JSON)
| JObj (members : list (string * JSON)).
Set Elimination Schemes.

(** ToBoolean *)
Definition truthy (v : JSON) : bool :=
  match v with
  | JNull => false
  | JBool b => b
  | JNum n => negb (n =? 0)%Z
  | JStr s => negb (s =? "")%string
  | JArr _ | JObj _ => true
  end.

Definition truthy_opt (o : option JSON) : bool :=
  match o with Some v => truthy v | None => false end.

Fixpoint obj_get (k : string) (m : list (string * JSON)) : option JSON :=
  match m with
  | (k', v) :: m' => if (k =? k')%string then Some v else obj_get k m'
  | [] => None
  end.

Fixpoint obj_remove (k : string) (m : list (string * JSON)) : list (string * JSON) :=
  match m with
  | (k', v) :: m' => if (k =? k')%string then obj_remove k m' else (k', v) :: obj_remove k m'
  | [] => []
  end.

(** [obj[k] = v]: an existing property keeps its place, a new one goes last. *)
Fixpoint obj_set (k : string) (v : JSON) (m : list (string * JSON)) : list (string * JSON) :=
  match m with
  | (k', v') :: m' => if (k =? k')%string then (k', v) :: m' else (k', v') :: obj_set k v m'
  | [] => [(k, v)]
  end.

(** The property [k] of [v], for the names the store reads ([id], [title],
    [slug], [status], [generator], [metadata], [created], [updated],
    [version], [pages]): none of them is a property of a string, a number, a
    boolean or an array, so only an object can have it.  (Reading a property
    of [null] throws: the callers test [is_null] first.) *)
Definition prop (v : JSON) (k : string) : option JSON :=
  match v with
  | JObj m => obj_get k m
  | _ => None
  end.

(** [v?.k] *)
Definition opt_prop (o : option JSON) (k : string) : option JSON :=
  match o with
  | Some v => prop v k
  | None => None
  end.

(** [a || b] with [b] a value. *)
Definition or_else (o : option JSON) (d : JSON) : JSON :=
  match o with
  | Some v => if truthy v then v else d
  | None => d
  end.

Definition keys (m : list (string * JSON)) : list string := map fst m.

Definition index_key (i : nat) : string := NilEmpty.string_of_uint (Nat.to_uint i).

Fixpoint index_from {A} (i : nat) (l : list A) : list (string * A) :=
  match l with
  | x :: l' => (index_key i, x) :: index_from (S i) l'
  | [] => []
  end.

Fixpoint chars (s : string) : list JSON :=
  match s with
  | String c r => JStr (String c EmptyString) :: chars r
  | EmptyString => []
  end.

(** The own enumerable properties copied by [{...v}]. *)
Definition spread (o : option JSON) : list (string * JSON) :=
  match o with
  | Some (JObj m) => m
  | Some (JArr l) => index_from 0 l
  | Some (JStr s) => index_from 0 (chars s)
  | _ => []
  end.

(** Strict equality [===].  Two objects (or arrays) are strictly equal when
    they are the same object; the store only ever compares an id with the id
    it was read from, so sameness is structural equality here. *)
Fixpoint strict_eq (a b : JSON) : bool :=
  match a, b with
  | JNull, JNull => true
  | JBool x, JBool y => Bool.eqb x y
  | JNum x, JNum y => (x =? y)%Z
  | JStr x, JStr y => (x =? y)%string
  | JArr l1, JArr l2 =>
      (fix go (l1 l2 : list JSON) : bool :=
         match l1, l2 with
         | [], [] => true
         | x :: l1', y :: l2' => strict_eq x y && go l1' l2'
         | _, _ => false
         end) l1 l2
  | JObj m1, JObj m2 =>
      (fix go (m1 m2 : list (string * JSON)) : bool :=
         match m1, m2 with
         | [], [] => true
         | (k1, x) :: m1', (k2, y) :: m2' => (k1 =? k2)%string && strict_eq x y && go m1' m2'
         | _, _ => false
         end) m1 m2
  | _, _ => false
  end.

(** [o === v], where [o] may be [undefined]. *)
Definition strict_eq_opt (o : option JSON) (v : JSON) : bool :=
  match o with
  | Some x => strict_eq x v
  | None => false
  end.

(** [Number.MAX_SAFE_INTEGER]: up to it, in absolute value, a number of
    JavaScript is the integer it denotes. *)
Definition MAX_SAFE_INTEGER : Z := 9007199254740991.

Definition safe_integer (n : Z) : bool := (Z.abs n <=? MAX_SAFE_INTEGER)%Z.

(** The values of the model: a number is a safe integer, and an object has no
    two properties of the same name. *)
Fixpoint wf_json (v : JSON) : Prop :=
  match v with
  | JNum n => safe_integer n = true
  | JArr l => (fix all (l : list JSON) : Prop :=
                 match l with x :: l' => wf_json x /\ all l' | [] => True end) l
  | JObj m => NoDup (keys m) /\
              (fix all (m : list (string * JSON)) : Prop :=
                 match m with (_, x) :: m' => wf_json x /\ all m' | [] => True end) m
  | _ => True
  end.

Definition is_null (v : JSON) : bool :=
  match v with JNull => true | _ => false end.

(** ** The JSON codec *)

(** *** [JSON.stringify (v, null, 2)]

    The text is produced in front of a continuation [k], the text that
    follows; [stringify v] is the whole text. *)

Fixpoint indent (d : nat) (k : string) : string :=
  match d with
  | S d' => String " " (String " " (indent d' k))
  | O => k
  end.

Definition newline (d : nat) (k : string) : string := String LF (indent d k).

Definition hex_digit (n : N) : ascii :=
  if (n <? 10)%N then ascii_of_N (48 + n) else ascii_of_N (87 + n).

(** QuoteJSONString, one code unit. *)
Definition emit_char (c : ascii) (k : string) : string :=
  if Ascii.eqb c DQ then String BSL (String DQ k)
  else if Ascii.eqb c BSL then String BSL (String BSL k)
  else if Ascii.eqb c BS then String BSL (String "b" k)
  else if Ascii.eqb c FF then String BSL (String "f" k)
  else if Ascii.eqb c LF then String BSL (String "n" k)
  else if Ascii.eqb c CR then String BSL (String "r" k)
  else if Ascii.eqb c TAB then String BSL (String "t" k)
  else if (char_code c <? 32)%N then
    String BSL (String "u" (String "0" (String "0"
      (String (hex_digit (char_code c / 16)) (String (hex_digit (char_code c mod 16)) k)))))
  else String c k.

Fixpoint emit_chars (s : string) (k : string) : string :=
  match s with
  | String c r => emit_char c (emit_chars r k)
  | EmptyString => k
  end.

Definition quote (s : string) (k : string) : string :=
  String DQ (emit_chars s (String DQ k)).

Fixpoint emit_uint (u : uint) (k : string) : string :=
  match u with
  | Nil => k
  | D0 u' => String "0" (emit_uint u' k)
  | D1 u' => String "1" (emit_uint u' k)
  | D2 u' => String "2" (emit_uint u' k)
  | D3 u' => String "3" (emit_uint u' k)
  | D4 u' => String "4" (emit_uint u' k)
  | D5 u' => String "5" (emit_uint u' k)
  | D6 u' => String "6" (emit_uint u' k)
  | D7 u' => String "7" (emit_uint u' k)
  | D8 u' => String "8" (emit_uint u' k)
  | D9 u' => String "9" (emit_uint u' k)
  end.

(** Number::toString of an integer. *)
Definition emit_Z (n : Z) (k : string) : string :=
  match n with
  | Z0 => String "0" k
  | Zpos p => emit_uint (Pos.to_uint p) k
  | Zneg p => String "-" (emit_uint (Pos.to_uint p) k)
  end.

(** SerializeJSONProperty at nesting depth [d] with the gap of two spaces. *)
Fixpoint emit (d : nat) (v : JSON) (k : string) : string :=
  match v with
  | JNull => "null" +:+ k
  | JBool true => "true" +:+ k
  | JBool false => "false" +:+ k
  | JNum n => emit_Z n k
  | JStr s => quote s k
  | JArr [] => "[]" +:+ k
  | JArr (x :: l) =>
      String "[" (newline (S d) (emit (S d) x
        (fold_right (fun y acc => String "," (newline (S d) (emit (S d) y acc)))
                    (newline d (String "]" k)) l)))
  | JObj [] => "{}" +:+ k
  | JObj ((key, x) :: m) =>
      String "{" (newline (S d) (quote key (String ":" (String " " (emit (S d) x
        (fold_right (fun '(key', y) acc =>
                       String "," (newline (S d)
                         (quote key' (String ":" (String " " (emit (S d) y acc))))))
                    (newline d (String "}" k)) m))))))
  end.

Definition stringify (v : JSON) : string := emit 0 v EmptyString.

(** *** [JSON.parse]

    A recursive-descent reader of the JSON grammar.  [fuel] bounds the nesting
    and the number of items; [JSON_parse] gives it the length of the text,
    which is always enough.  Outside the model, and refused: a number with a
    fraction or an exponent or beyond the safe integers, and a [\u] escape
    above 00FF. *)

Definition is_json_ws (c : ascii) : bool :=
  Ascii.eqb c " " || Ascii.eqb c TAB || Ascii.eqb c LF || Ascii.eqb c CR.

Fixpoint skip_ws (s : string) : string :=
  match s with
  | String c r => if is_json_ws c then skip_ws r else s
  | EmptyString => EmptyString
  end.

Definition hex_value (c : ascii) : option N :=
  if in_range 48 57 c then Some (char_code c - 48)%N
  else if in_range 97 102 c then Some (char_code c - 87)%N
  else if in_range 65 70 c then Some (char_code c - 55)%N
  else None.

Definition hex4 (a b c d : ascii) : option N :=
  match hex_value a, hex_value b, hex_value c, hex_value d with
  | Some x, Some y, Some z, Some w => Some (((x * 16 + y) * 16 + z) * 16 + w)%N
  | _, _, _, _ => None
  end.

Definition cons_char (c : ascii) (o : option (string * string)) : option (string * string) :=
  match o with
  | Some (s, r) => Some (String c s, r)
  | None => None
  end.

(** The characters of a string literal, after its opening quote. *)
Fixpoint parse_chars (s : string) : option (string * string) :=
  match s with
  | EmptyString => None
  | String c r =>
      if Ascii.eqb c DQ then Some (EmptyString, r)
      else if Ascii.eqb c BSL then
        match r with
        | String e r1 =>
            if Ascii.eqb e DQ then cons_char DQ (parse_chars r1)
            else if Ascii.eqb e BSL then cons_char BSL (parse_chars r1)
            else if Ascii.eqb e "/" then cons_char "/" (parse_chars r1)
            else if Ascii.eqb e "b" then cons_char BS (parse_chars r1)
            else if Ascii.eqb e "f" then cons_char FF (parse_chars r1)
            else if Ascii.eqb e "n" then cons_char LF (parse_chars r1)
            else if Ascii.eqb e "r" then cons_char CR (parse_chars r1)
            else if Ascii.eqb e "t" then cons_char TAB (parse_chars r1)
            else if Ascii.eqb e "u" then
              match r1 with
              | String h1 (String h2 (String h3 (String h4 r2))) =>
                  match hex4 h1 h2 h3 h4 with
                  | Some n => if (n <? 256)%N then cons_char (ascii_of_N n) (parse_chars r2)
                              else None
                  | None => None
                  end
              | _ => None
              end
            else None
        | EmptyString => None
        end
      else if (char_code c <? 32)%N then None
      else cons_char c (parse_chars r)
  end.

Definition digit_of (c : ascii) : option (uint -> uint) :=
  if Ascii.eqb c "0" then Some D0
  else if Ascii.eqb c "1" then Some D1
  else if Ascii.eqb c "2" then Some D2
  else if Ascii.eqb c "3" then Some D3
  else if Ascii.eqb c "4" then Some D4
  else if Ascii.eqb c "5" then Some D5
  else if Ascii.eqb c "6" then Some D6
  else if Ascii.eqb c "7" then Some D7
  else if Ascii.eqb c "8" then Some D8
  else if Ascii.eqb c "9" then Some D9
  else None.

Fixpoint read_digits (s : string) : uint * string :=
  match s with
  | String c r =>
      match digit_of c with
      | Some d => let (u, r') := read_digits r in (d u, r')
      | None => (Nil, s)
      end
  | EmptyString => (Nil, EmptyString)
  end.

(** No digit, or a leading zero before another digit, is a syntax error. *)
Definition int_literal_ok (u : uint) : bool :=
  match u with
  | Nil => false
  | D0 Nil => true
  | D0 _ => false
  | _ => true
  end.

Definition starts_fraction (s : string) : bool :=
  match s with
  | String c _ => Ascii.eqb c "." || Ascii.eqb c "e" || Ascii.eqb c "E"
  | EmptyString => false
  end.

Definition parse_unsigned (s : string) : option (Z * string) :=
  let (u, r) := read_digits s in
  if int_literal_ok u && negb (starts_fraction r) && safe_integer (Z.of_N (N.of_uint u))
  then Some (Z.of_N (N.of_uint u), r)
  else None.

Definition parse_number (s : string) : option (Z * string) :=
  match s with
  | String c r =>
      if Ascii.eqb c "-" then
        match parse_unsigned r with
        | Some (n, r') => Some ((- n)%Z, r')
        | None => None
        end
      else parse_unsigned s
  | EmptyString => None
  end.

Definition literal (rest : string) (v : JSON) (s : string) : option (JSON * string) :=
  match drop_prefix rest s with
  | Some r => Some (v, r)
  | None => None
  end.

(** The object built from the member [k: v] followed by the members [m]:
    the last value of a repeated name stays, at the place of its first
    occurrence. *)
Definition obj_cons (k : string) (v : JSON) (m : list (string * JSON)) : list (string * JSON) :=
  match obj_get k m with
  | Some v' => (k, v') :: obj_remove k m
  | None => (k, v) :: m
  end.

Fixpoint parse_value (fuel : nat) (s : string) : option (JSON * string) :=
  match fuel with
  | O => None
  | S fuel' =>
      match skip_ws s with
      | EmptyString => None
      | String c r =>
          if Ascii.eqb c "n" then literal "ull" JNull r
          else if Ascii.eqb c "t" then literal "rue" (JBool true) r
          else if Ascii.eqb c "f" then literal "alse" (JBool false) r
          else if Ascii.eqb c DQ then
            match parse_chars r with
            | Some (str, r') => Some (JStr str, r')
            | None => None
            end
          else if Ascii.eqb c "[" then
            match skip_ws r with
            | String c' r' =>
                if Ascii.eqb c' "]" then Some (JArr [], r')
                else match parse_elements fuel' r with
                     | Some (l, r'') => Some (JArr l, r'')
                     | None => None
                     end
            | EmptyString => None
            end
          else if Ascii.eqb c "{" then
            match skip_ws r with
            | String c' r' =>
                if Ascii.eqb c' "}" then Some (JObj [], r')
                else match parse_members fuel' r with
                     | Some (m, r'') => Some (JObj m, r'')
                     | None => None
                     end
            | EmptyString => None
            end
          else
            match parse_number (String c r) with
            | Some (n, r') => Some (JNum n, r')
            | None => None
            end
      end
  end
with parse_elements (fuel : nat) (s : string) : option (list JSON * string) :=
  match fuel with
  | O => None
  | S fuel' =>
      match parse_value fuel' s with
      | Some (v, r) =>
          match skip_ws r with
          | String c r' =>
              if Ascii.eqb c "," then
                match parse_elements fuel' r' with
                | Some (l, r'') => Some (v :: l, r'')
                | None => None
                end
              else if Ascii.eqb c "]" then Some ([v], r')
              else None
          | EmptyString => None
          end
      | None => None
      end
  end
with parse_members (fuel : nat) (s : string) : option (list (string * JSON) * string) :=
  match fuel with
  | O => None
  | S fuel' =>
      match skip_ws s with
      | String q r =>
          if Ascii.eqb q DQ then
            match parse_chars r with
            | Some (key, r1) =>
                match skip_ws r1 with
                | String c r2 =>
                    if Ascii.eqb c ":" then
                      match parse_value fuel' r2 with
                      | Some (v, r3) =>
                          match skip_ws r3 with
                          | String c' r4 =>
                              if Ascii.eqb c' "," then
                                match parse_members fuel' r4 with
                                | Some (m, r5) => Some (obj_cons key v m, r5)
                                | None => None
                                end
                              else if Ascii.eqb c' "}" then Some ([(key, v)], r4)
                              else None
                          | EmptyString => None
                          end
                      | None => None
                      end
                    else None
                | EmptyString => None
                end
            | None => None
            end
          else None
      | EmptyString => None
      end
  end.

(** [JSON.parse text]: [None] is a [SyntaxError]. *)
Definition JSON_parse (text : string) : option JSON :=
  match parse_value (S (String.length text)) text with
  | Some (v, r) => match skip_ws r with EmptyString => Some v | _ => None end
  | None => None
  end.

(** ** Errors and results *)

(** The [code] of an error thrown by the store or by [fs], or the [name] of a
    built-in error.  [EIO] stands for any I/O failure other than [ENOENT]. *)
Inductive Error : Type :=
| INVALID_PAGE_ID
| PATH_TRAVERSAL
| INVALID_PAGE_DATA
| PAGE_NOT_FOUND
| INVALID_JSON
| READ_ERROR
| PAGE_ID_MISMATCH
| WRITE_ERROR
| LIST_ERROR
| INVALID_IMPORT_DATA
| PAGE_EXISTS
| INVALID_BACKUP
| INVALID_BACKUP_FORMAT
| ENOENT
| EIO
| SyntaxError
| TypeError.

Inductive Result (A : Type) : Type :=
| Ok (a : A)
| Err (e : Error).
Arguments Ok {A} a.
Arguments Err {A} e.

(** ** Constants *)

(** Valid page ID pattern [/^[a-zA-Z0-9_-]+$/] *)
Definition is_id_char (c : ascii) : bool :=
  in_range 97 122 c || in_range 65 90 c || in_range 48 57 c ||
  Ascii.eqb c "_" || Ascii.eqb c "-".

Definition PAGE_ID_PATTERN_test (s : string) : bool :=
  negb (s =? "")%string && string_forallb is_id_char s.

Definition MAX_PAGE_ID_LENGTH : nat := 100.

(** [0o640] *)
Definition FILE_PERMISSIONS : N := 416.

Definition REQUIRED_PAGE_FIELDS : list string := ["id"; "title"].

(** ** Paths (POSIX [path] module) *)

Fixpoint split_on (sep : ascii) (s : string) : list string :=
  match s with
  | EmptyString => [EmptyString]
  | String c r =>
      if Ascii.eqb c sep then EmptyString :: split_on sep r
      else match split_on sep r with
           | x :: l => String c x :: l
           | [] => [String c EmptyString]
           end
  end.

(** One step of [normalizeString]: the segments kept so far, last first. *)
Definition push_segment (absolute : bool) (acc : list string) (seg : string) : list string :=
  if (seg =? "")%string || (seg =? ".")%string then acc
  else if (seg =? "..")%string then
    match acc with
    | x :: acc' => if (x =? "..")%string then seg :: acc else acc'
    | [] => if absolute then [] else [seg]
    end
  else seg :: acc.

Definition normalize_segments (absolute : bool) (segs : list string) : list string :=
  rev (fold_left (push_segment absolute) segs []).

Definition path_sep : string := "/".

Definition isAbsolute (p : string) : bool := startsWith p path_sep.

Definition path_normalize (p : string) : string :=
  if (p =? "")%string then "."
  else
    let body := String.concat path_sep (normalize_segments (isAbsolute p) (split_on "/" p)) in
    if (body =? "")%string then
      if isAbsolute p then path_sep else if endsWith p path_sep then "./" else "."
    else
      let body' := if endsWith p path_sep then body +:+ path_sep else body in
      if isAbsolute p then path_sep +:+ body' else body'.

Definition path_join (parts : list string) : string :=
  match List.filter (fun s => negb (s =? "")%string) parts with
  | [] => "."
  | parts' => path_normalize (String.concat path_sep parts')
  end.

(** The host of the module: the directory of the source file, which Node
    gives as an absolute path; the working directory; and the host's reading
    of a date given as a string or an object ([None] is an invalid date;
    beyond the ISO format the reading is the host's own). *)
Class Host : Type := {
  __dirname : string;
  cwd : string;
  Date_parse : JSON -> option Z;
  dirname_absolute : isAbsolute __dirname = true
}.

Section WithHost.
Context {host : Host}.

(** [path.resolve (p)], with one argument. *)
Definition path_resolve (p : string) : string :=
  let full := if isAbsolute p then p
              else if (p =? "")%string then cwd else cwd +:+ path_sep +:+ p in
  path_sep +:+ String.concat path_sep (normalize_segments true (split_on "/" full)).

(** Directory for page storage *)
Definition PAGES_DIR : string := path_join [__dirname; ".."; "data"; "pages"].

(** ** Path security *)

(** Get a safe file path for the given page ID. *)
Definition getSafeFilePath (pageId : JSON) : Result string :=
  match pageId with
  | JStr s =>
      if negb (truthy pageId) then Err INVALID_PAGE_ID
      else
        let trimmedId := trim s in
        if (String.length trimmedId =? 0)%nat || (MAX_PAGE_ID_LENGTH <? String.length trimmedId)%nat
        then Err INVALID_PAGE_ID
        else if negb (PAGE_ID_PATTERN_test trimmedId) then Err INVALID_PAGE_ID
        else
          let fileName := trimmedId +:+ ".json" in
          let filePath := path_join [PAGES_DIR; fileName] in
          let resolvedPath := path_resolve filePath in
          let resolvedPagesDir := path_resolve PAGES_DIR in
          if negb (startsWith resolvedPath (resolvedPagesDir +:+ path_sep))
          then Err PATH_TRAVERSAL
          else Ok resolvedPath
  | _ => Err INVALID_PAGE_ID
  end.

End WithHost.

(** ** The file system and the environment *)

Record File : Type := { content : string; mode : N }.

(** What can go wrong in the write sequence of one [writePage]: [fs.writeFile]
    fails (leaving nothing, or some of the bytes, under the temp name),
    [fs.rename] fails, or [fs.chmod] fails. *)
Inductive Fault : Type :=
| NoFault
| WriteFileFails (residue : option string)
| RenameFails
| ChmodFails.

(** What one [writePage] gets from outside: the time value of [new Date ()]
    (milliseconds since the epoch), [crypto.randomBytes (8).toString ('hex')],
    and the I/O failures. *)
Record Env : Type := {
  time_now : Z;
  randomHex : string;
  fault : Fault;
  unlink_fails : bool
}.

(** The civil date [(year, month, day)] of a day number (days since
    1970-01-01, proleptic Gregorian calendar). *)
Definition civil_from_days (z : Z) : Z * Z * Z :=
  let z' := (z + 719468)%Z in
  let era := (z' / 146097)%Z in
  let doe := (z' - era * 146097)%Z in
  let yoe := ((doe - doe / 1460 + doe / 36524 - doe / 146096) / 365)%Z in
  let doy := (doe - (365 * yoe + yoe / 4 - yoe / 100))%Z in
  let mp := ((5 * doy + 2) / 153)%Z in
  let d := (doy - (153 * mp + 2) / 5 + 1)%Z in
  let m := if (mp <? 10)%Z then (mp + 3)%Z else (mp - 9)%Z in
  let y := (yoe + era * 400)%Z in
  ((if (m <=? 2)%Z then y + 1 else y)%Z, m, d).

(** The last [width] decimal digits of [n], zero-padded. *)
Fixpoint pad (width : nat) (n : Z) : string :=
  match width with
  | S w => pad w (n / 10) +:+ String (ascii_of_N (48 + Z.to_N (n mod 10))) EmptyString
  | O => EmptyString
  end.

(** [Date.prototype.toISOString] of the date with time value [t]. *)
Definition toISOString (t : Z) : string :=
  let '(y, m, d) := civil_from_days (t / 86400000) in
  let ms := (t mod 86400000)%Z in
  let year := if ((0 <=? y) && (y <=? 9999))%Z then pad 4 y
              else String (if (y <? 0)%Z then "-" else "+")%char (pad 6 (Z.abs y)) in
  year +:+ "-" +:+ pad 2 m +:+ "-" +:+ pad 2 d +:+ "T" +:+
  pad 2 (ms / 3600000) +:+ ":" +:+ pad 2 (ms / 60000 mod 60) +:+ ":" +:+
  pad 2 (ms / 1000 mod 60) +:+ "." +:+ pad 3 (ms mod 1000) +:+ "Z".

(** The storage directory ([None]: it does not exist; else its files by
    name), and the environments of the writes to come. *)
Record World : Type := {
  dir : option (gmap string File);
  clock : nat;
  env : nat -> Env
}.

Definition set_dir (w : World) (m : gmap string File) : World :=
  {| dir := Some m; clock := clock w; env := env w |}.

Definition tick (w : World) : World :=
  {| dir := dir w; clock := S (clock w); env := env w |}.

(** Stateful, failing computations. *)
Definition M (A : Type) : Type := World -> Result A * World.

Definition ret {A} (a : A) : M A := fun w => (Ok a, w).
Definition throw {A} (e : Error) : M A := fun w => (Err e, w).
Definition lift {A} (r : Result A) : M A := fun w => (r, w).
Definition bind {A B} (m : M A) (k : A -> M B) : M B :=
  fun w => match m w with
           | (Ok a, w') => k a w'
           | (Err e, w') => (Err e, w')
           end.
Definition try_catch {A} (m : M A) (handler : Error -> M A) : M A :=
  fun w => match m w with
           | (Ok a, w') => (Ok a, w')
           | (Err e, w') => handler e w'
           end.

Notation "'let*' x ':=' m 'in' k" := (bind m (fun x => k))
  (at level 10, x name, m at level 100, k at level 200).
Notation "m '>>' k" := (bind m (fun _ => k))
  (at level 60, right associativity).

Section Store.
Context {host : Host}.

(** The name, inside the storage directory, of the file at path [p]. *)
Definition rel_name (p : string) : option string :=
  drop_prefix (path_resolve PAGES_DIR +:+ path_sep) p.

Definition file_at (w : World) (p : string) : option File :=
  match dir w, rel_name p with
  | Some m, Some n => m !! n
  | _, _ => None
  end.

Definition fs_readFile (p : string) : M string :=
  fun w => match file_at w p with
           | Some f => (Ok (content f), w)
           | None => (Err ENOENT, w)
           end.

Definition fs_access (p : string) : M unit :=
  fun w => match file_at w p with
           | Some _ => (Ok tt, w)
           | None => (Err ENOENT, w)
           end.

(** [fs.mkdir (PAGES_DIR, { recursive: true })] *)
Definition fs_mkdir_PAGES_DIR : M unit :=
  fun w => match dir w with
           | Some _ => (Ok tt, w)
           | None => (Ok tt, set_dir w ∅)
           end.

(** [fs.readdir (PAGES_DIR)] *)
Definition fs_readdir_PAGES_DIR : M (list string) :=
  fun w => match dir w with
           | Some m => (Ok (map fst (map_to_list m)), w)
           | None => (Err ENOENT, w)
           end.

(** [fs.writeFile (p, data, { mode })]: the mode is that of a new file. *)
Definition fs_writeFile (p data : string) (perm : N) (failure : option (option string)) : M unit :=
  fun w => match dir w, rel_name p with
           | Some m, Some n =>
               let keep := match m !! n with Some f => mode f | None => perm end in
               match failure with
               | None => (Ok tt, set_dir w (<[n := {| content := data; mode := keep |}]> m))
               | Some None => (Err EIO, w)
               | Some (Some part) =>
                   (Err EIO, set_dir w (<[n := {| content := part; mode := keep |}]> m))
               end
           | _, _ => (Err ENOENT, w)
           end.

(** [fs.rename (src, dst)]: [dst] becomes the file [src], in one step. *)
Definition fs_rename (src dst : string) (fails : bool) : M unit :=
  fun w => if fails then (Err EIO, w)
           else match dir w, rel_name src, rel_name dst with
                | Some m, Some s, Some d =>
                    match m !! s with
                    | Some f => (Ok tt, set_dir w (<[d := f]> (delete s m)))
                    | None => (Err ENOENT, w)
                    end
                | _, _, _ => (Err ENOENT, w)
                end.

Definition fs_chmod (p : string) (perm : N) (fails : bool) : M unit :=
  fun w => if fails then (Err EIO, w)
           else match dir w, rel_name p with
                | Some m, Some n =>
                    match m !! n with
                    | Some f => (Ok tt, set_dir w (<[n := {| content := content f; mode := perm |}]> m))
                    | None => (Err ENOENT, w)
                    end
                | _, _ => (Err ENOENT, w)
                end.

Definition fs_unlink (p : string) (fails : bool) : M unit :=
  fun w => if fails then (Err EIO, w)
           else match dir w, rel_name p with
                | Some m, Some n =>
                    match m !! n with
                    | Some _ => (Ok tt, set_dir w (delete n m))
                    | None => (Err ENOENT, w)
                    end
                | _, _ => (Err ENOENT, w)
                end.

(** The environment of this write; the next write gets the next one. *)
Definition next_env : M Env :=
  fun w => (Ok (env w (clock w)), tick w).

(** ** Directory management *)

(** Ensure the pages directory exists. *)
Definition ensurePagesDir : M unit := fs_mkdir_PAGES_DIR.

(** ** Page CRUD operations *)

(** The loop over [REQUIRED_PAGE_FIELDS]: [page[field]] throws on [null]. *)
Fixpoint check_required (page : JSON) (fields : list string) : Result unit :=
  match fields with
  | field :: rest =>
      if is_null page then Err TypeError
      else if negb (truthy_opt (prop page field)) then Err INVALID_PAGE_DATA
      else check_required page rest
  | [] => Ok tt
  end.

(** The parse-and-validate step of [readPage]. *)
Definition decode (text : string) : Result JSON :=
  match JSON_parse text with
  | Some page =>
      match check_required page REQUIRED_PAGE_FIELDS with
      | Ok _ => Ok page
      | Err e => Err e
      end
  | None => Err SyntaxError
  end.

(** The serialization step of [writePage]. *)
Definition encode (page : JSON) : string := stringify page.

(** Read a page from disk. *)
Definition readPage (pageId : JSON) (w : World) : Result JSON :=
  match getSafeFilePath pageId with
  | Err e => Err e
  | Ok filePath =>
      match
        (match fst (fs_readFile filePath w) with
         | Ok text => decode text
         | Err e => Err e
         end)
      with
      | Ok page => Ok page
      | Err ENOENT => Err PAGE_NOT_FOUND
      | Err SyntaxError => Err INVALID_JSON
      | Err INVALID_PAGE_DATA => Err INVALID_PAGE_DATA
      | Err INVALID_PAGE_ID => Err INVALID_PAGE_ID
      | Err _ => Err READ_ERROR
      end
  end.

Definition is_object (v : JSON) : bool :=
  match v with JObj _ | JArr _ => true | _ => false end.

(** The metadata written by [writePage]. *)
Definition prepare_metadata (pageData : JSON) (existingPage : option JSON) (now : string)
  : list (string * JSON) :=
  let metadata := obj_set "updated" (JStr now) (spread (prop pageData "metadata")) in
  let existing_created := opt_prop (opt_prop existingPage "metadata") "created" in
  if truthy_opt existing_created then
    match existing_created with
    | Some c => obj_set "created" c metadata
    | None => metadata
    end
  else if negb (truthy_opt (obj_get "created" metadata)) then
    obj_set "created" (JStr now) metadata
  else metadata.

(** The write sequence: temp file, rename, permissions; cleanup on error. *)
Definition write_sequence (filePath tempPath jsonContent : string) (e : Env) : M unit :=
  try_catch
    (fs_writeFile tempPath jsonContent FILE_PERMISSIONS
       (match fault e with WriteFileFails residue => Some residue | _ => None end) >>
     fs_rename tempPath filePath
       (match fault e with RenameFails => true | _ => false end) >>
     fs_chmod filePath FILE_PERMISSIONS
       (match fault e with ChmodFails => true | _ => false end))
    (fun _ =>
       try_catch (fs_unlink tempPath (unlink_fails e)) (fun _ => ret tt) >>
       throw WRITE_ERROR).

(** The final page object: the page data with the prepared metadata. *)
Definition build_final (pageData : JSON) (existingPage : option JSON) (now : string) : JSON :=
  JObj (obj_set "metadata" (JObj (prepare_metadata pageData existingPage now))
                (spread (Some pageData))).

(** The temp file path of a write. *)
Definition temp_path (filePath hex : string) : string :=
  filePath +:+ "." +:+ hex +:+ ".tmp".

(** Check if page exists (for created timestamp). *)
Definition read_existing (pageId : JSON) : M (option JSON) :=
  fun w => match readPage pageId w with
           | Ok page => (Ok (Some page), w)
           | Err PAGE_NOT_FOUND => (Ok None, w)
           | Err e => (Err e, w)
           end.

(** Write a page to disk with atomic write pattern. *)
Definition writePage (pageId : JSON) (pageData : JSON) : M JSON :=
  if negb (truthy pageData) || negb (is_object pageData) then throw INVALID_PAGE_DATA
  else
    match check_required pageData REQUIRED_PAGE_FIELDS with
    | Err e => throw e
    | Ok _ =>
        if negb (strict_eq_opt (prop pageData "id") pageId)
        then throw PAGE_ID_MISMATCH
        else
          let* filePath := lift (getSafeFilePath pageId) in
          let* existingPage := read_existing pageId in
          ensurePagesDir >>
          let* e := next_env in
          let now := toISOString (time_now e) in
          let finalPageData := build_final pageData existingPage now in
          let tempPath := temp_path filePath (randomHex e) in
          write_sequence filePath tempPath (encode finalPageData) e >>
          ret finalPageData
    end.

End Store.

Section Listing.
Context {host : Host}.

(** ** Page listing and search *)

Record Summary : Type := {
  s_id : option JSON;
  s_title : option JSON;
  s_slug : JSON;
  s_status : JSON;
  s_created : JSON;
  s_updated : JSON;
  s_generator : JSON
}.

Definition summary_of (page : JSON) : Summary :=
  {| s_id := prop page "id";
     s_title := prop page "title";
     s_slug := or_else (prop page "slug") JNull;
     s_status := or_else (prop page "status") (JStr "draft");
     s_created := or_else (opt_prop (prop page "metadata") "created") JNull;
     s_updated := or_else (opt_prop (prop page "metadata") "updated") JNull;
     s_generator := or_else (prop page "generator") JNull |}.

(** The time value of [new Date (v)]; [None] is an invalid date (NaN).  A
    number is a time value when it is in range (TimeClip). *)
Definition new_Date (v : JSON) : option Z :=
  match v with
  | JNum n => if (Z.abs n <=? 8640000000000000)%Z then Some n else None
  | JBool b => Some (if b then 1 else 0)%Z
  | JNull => Some 0%Z
  | JStr _ | JArr _ | JObj _ => Date_parse v
  end.

(** [a.updated ? new Date (a.updated) : new Date (0)] *)
Definition date_of (a : Summary) : option Z :=
  if truthy (s_updated a) then new_Date (s_updated a) else new_Date (JNum 0).

(** The comparator [(a, b) => dateB - dateA]; [None] is NaN. *)
Definition compare_updated (a b : Summary) : option Z :=
  match date_of a, date_of b with
  | Some ta, Some tb => Some (tb - ta)%Z
  | _, _ => None
  end.

(** [Array.prototype.sort (comparefn)]: a stable sort; [a] moves behind [b]
    only when [comparefn (a, b) > 0] (NaN counts as 0). *)
Definition goes_after {A} (comparefn : A -> A -> option Z) (a b : A) : bool :=
  match comparefn a b with
  | Some c => (0 <? c)%Z
  | None => false
  end.

Fixpoint sort_insert {A} (comparefn : A -> A -> option Z) (a : A) (l : list A) : list A :=
  match l with
  | b :: l' => if goes_after comparefn a b then b :: sort_insert comparefn a l' else a :: l
  | [] => [a]
  end.

Definition Array_sort {A} (comparefn : A -> A -> option Z) (l : list A) : list A :=
  fold_right (sort_insert comparefn) [] l.

(** [path.basename (file, '.json')] of a directory entry. *)
Definition basename_json (file : string) : string :=
  match strip_suffix ".json" file with
  | Some stem => stem
  | None => file
  end.

(** The body of the loop of [listPages]: unreadable files are skipped. *)
Definition summaries (w : World) (jsonFiles : list string) : list Summary :=
  flat_map (fun file =>
              match readPage (JStr (basename_json file)) w with
              | Ok page => [summary_of page]
              | Err _ => []
              end) jsonFiles.

(** List all pages with summary information. *)
Definition listPages : M (list Summary) :=
  try_catch
    (ensurePagesDir >>
     let* files := fs_readdir_PAGES_DIR in
     let jsonFiles := List.filter (fun f => endsWith f ".json") files in
     fun w => (Ok (Array_sort compare_updated (summaries w jsonFiles)), w))
    (fun error => match error with
                  | ENOENT => ret []
                  | _ => throw LIST_ERROR
                  end).

(** [field?.toLowerCase ().includes (normalizedQuery)]: [undefined] (falsy)
    when the field is [undefined] or [null], a [TypeError] when it is neither
    that nor a string, since it has no [toLowerCase] to call. *)
Definition field_match (field : option JSON) (normalizedQuery : string) : Result bool :=
  match field with
  | None | Some JNull => Ok false
  | Some (JStr s) => Ok (includes (toLowerCase s) normalizedQuery)
  | Some _ => Err TypeError
  end.

Definition page_match (normalizedQuery : string) (page : Summary) : Result bool :=
  match field_match (s_id page) normalizedQuery with
  | Err e => Err e
  | Ok idMatch =>
      match field_match (s_title page) normalizedQuery with
      | Err e => Err e
      | Ok titleMatch =>
          match field_match (Some (s_slug page)) normalizedQuery with
          | Err e => Err e
          | Ok slugMatch => Ok (idMatch || titleMatch || slugMatch)
          end
      end
  end.

(** [Array.prototype.filter] with a callback that may throw. *)
Fixpoint filter_pages (normalizedQuery : string) (pages : list Summary) : Result (list Summary) :=
  match pages with
  | page :: rest =>
      match page_match normalizedQuery page with
      | Err e => Err e
      | Ok keep =>
          match filter_pages normalizedQuery rest with
          | Err e => Err e
          | Ok rest' => Ok (if keep then page :: rest' else rest')
          end
      end
  | [] => Ok []
  end.

(** Search pages by title, slug, or id.  [None] is an absent query. *)
Definition searchPages (query : option JSON) : M (list Summary) :=
  match query with
  | Some (JStr q) =>
      if negb (truthy (JStr q)) then listPages
      else
        let normalizedQuery := trim (toLowerCase q) in
        if (String.length normalizedQuery =? 0)%nat then listPages
        else
          let* allPages := listPages in
          lift (filter_pages normalizedQuery allPages)
  | _ => listPages
  end.

(** ** Utility functions *)

(** Check if a page exists. *)
Definition pageExists (pageId : JSON) (w : World) : bool :=
  match getSafeFilePath pageId with
  | Ok filePath =>
      match fst (fs_access filePath w) with
      | Ok _ => true
      | Err _ => false
      end
  | Err _ => false
  end.

(** ** Import *)

(** Import a page from JSON data. *)
Definition importPage (jsonData : JSON) (overwrite : bool) : M JSON :=
  let* pageData :=
    match jsonData with
    | JStr text =>
        match JSON_parse text with
        | Some v => ret v
        | None => throw INVALID_JSON
        end
    | JObj _ | JArr _ => ret jsonData
    | _ => throw INVALID_IMPORT_DATA
    end in
  match check_required pageData REQUIRED_PAGE_FIELDS with
  | Err e => throw e
  | Ok _ =>
      match prop pageData "id" with
      | Some pageId =>
          let* exists_ := (fun w => (Ok (pageExists pageId w), w)) in
          if exists_ && negb overwrite then throw PAGE_EXISTS
          else writePage pageId pageData
      | None => throw INVALID_PAGE_DATA (* excluded by the check above *)
      end
  end.

(** ** Backup *)

Record RestoreError : Type := { e_pageId : option JSON; e_error : Error }.

Record RestoreResults : Type := {
  total : nat;
  restored : nat;
  skipped : nat;
  errors : list RestoreError
}.

(** The loop of [restoreFromBackup].  Its handler reads [page.id], which
    throws when [page] is [null]. *)
Fixpoint restore_loop (pages : list JSON) (overwrite : bool) (results : RestoreResults)
  : M RestoreResults :=
  match pages with
  | page :: rest =>
      let* results' :=
        try_catch
          (importPage page overwrite >>
           ret {| total := total results; restored := S (restored results);
                  skipped := skipped results; errors := errors results |})
          (fun error =>
             match error with
             | PAGE_EXISTS =>
                 ret {| total := total results; restored := restored results;
                        skipped := S (skipped results); errors := errors results |}
             | _ =>
                 if is_null page then throw TypeError
                 else ret {| total := total results; restored := restored results;
                             skipped := skipped results;
                             errors := errors results ++
                                       [{| e_pageId := prop page "id"; e_error := error |}] |}
             end) in
      restore_loop rest overwrite results'
  | [] => ret results
  end.

(** Restore pages from a backup. *)
Definition restoreFromBackup (backupJson : string) (overwrite : bool) : M RestoreResults :=
  match JSON_parse backupJson with
  | None => throw INVALID_BACKUP
  | Some backup =>
      if is_null backup then throw TypeError
      else
        match prop backup "pages" with
        | Some (JArr pages) =>
            if negb (truthy_opt (prop backup "version")) then throw INVALID_BACKUP_FORMAT
            else
              restore_loop pages overwrite
                {| total := length pages; restored := 0; skipped := 0; errors := [] |}
        | _ => throw INVALID_BACKUP_FORMAT
        end
  end.

End Listing.
(** ** Vocabulary of the statements *)

(** A path segment that [normalizeString] keeps as it is. *)
Definition no_slash (s : string) : Prop :=
  string_forallb (fun c => negb (Ascii.eqb c "/")) s = true.

Definition clean_segment (s : string) : Prop :=
  s <> "" /\ s <> "." /\ s <> ".." /\ no_slash s.


(** *** Identifiers and paths *)

Definition contains_char (s : string) (c : ascii) : Prop :=
  In c (list_ascii_of_string s).

(** An identifier that [getSafeFilePath] refuses: no string, or a string that
    after trimming is empty, longer than 100, or has a character outside
    [[A-Za-z0-9_-]]. *)
Definition invalid_identifier (pageId : JSON) : Prop :=
  match pageId with
  | JStr s =>
      trim s = "" \/ MAX_PAGE_ID_LENGTH < String.length (trim s) \/
      exists c, contains_char (trim s) c /\ is_id_char c = false
  | _ => True
  end.

(** The same, with the character test on the identifier as it is given. *)
Definition invalid_identifier_untrimmed (pageId : JSON) : Prop :=
  match pageId with
  | JStr s =>
      s = "" \/ MAX_PAGE_ID_LENGTH < String.length (trim s) \/
      exists c, contains_char s c /\ is_id_char c = false
  | _ => True
  end.

Definition valid_identifier (s : string) : Prop :=
  PAGE_ID_PATTERN_test s = true /\ String.length s <= MAX_PAGE_ID_LENGTH.

(** *** An example host *)

(** Days from 1970-01-01 to the civil date [y]-[m]-[d]. *)
Definition days_from_civil (y m d : Z) : Z :=
  let y' := if (m <=? 2)%Z then (y - 1)%Z else y in
  let era := (y' / 400)%Z in
  let yoe := (y' - era * 400)%Z in
  let doy := ((153 * (if (2 <? m)%Z then m - 3 else m + 9) + 2) / 5 + d - 1)%Z in
  let doe := (yoe * 365 + yoe / 4 - yoe / 100 + doy)%Z in
  (era * 146097 + doe - 719468)%Z.

Definition days_in_month (y m : Z) : Z :=
  if (m =? 2)%Z then
    if ((y mod 4 =? 0) && (negb (y mod 100 =? 0) || (y mod 400 =? 0)))%Z then 29%Z else 28%Z
  else if ((m =? 4) || (m =? 6) || (m =? 9) || (m =? 11))%Z then 30%Z
  else 31%Z.

Definition digit_value (c : ascii) : option Z :=
  if in_range 48 57 c then Some (Z.of_N (char_code c) - 48)%Z else None.

Fixpoint read_number (n : nat) (acc : Z) (s : string) : option (Z * string) :=
  match n with
  | O => Some (acc, s)
  | S n' =>
      match s with
      | String c r =>
          match digit_value c with
          | Some d => read_number n' (acc * 10 + d)%Z r
          | None => None
          end
      | EmptyString => None
      end
  end.

Definition expect_char (c : ascii) (s : string) : option string :=
  match s with
  | String c' r => if Ascii.eqb c c' then Some r else None
  | EmptyString => None
  end.

(** The time value of a date-time in the format of [Date.prototype.toISOString],
    [YYYY-MM-DDTHH:mm:ss.sssZ]. *)
Definition parse_iso (s : string) : option Z :=
  '(y, s) ← read_number 4 0 s;
  s ← expect_char "-" s;
  '(mo, s) ← read_number 2 0 s;
  s ← expect_char "-" s;
  '(d, s) ← read_number 2 0 s;
  s ← expect_char "T" s;
  '(h, s) ← read_number 2 0 s;
  s ← expect_char ":" s;
  '(mi, s) ← read_number 2 0 s;
  s ← expect_char ":" s;
  '(sec, s) ← read_number 2 0 s;
  s ← expect_char "." s;
  '(ms, s) ← read_number 3 0 s;
  s ← expect_char "Z" s;
  if ((s =? "")%string && (1 <=? mo) && (mo <=? 12) && (1 <=? d) && (d <=? days_in_month y mo)
      && (h <=? 23) && (mi <=? 59) && (sec <=? 59))%Z
  then Some ((((days_from_civil y mo d * 24 + h) * 60 + mi) * 60 + sec) * 1000 + ms)%Z
  else None.

(** A host that installs the module under [/app/src/utils] and reads dates
    in the ISO format only. *)
Definition example_host : Host :=
  {| __dirname := "/app/src/utils";
     cwd := "/app";
     Date_parse := fun v => match v with JStr s => parse_iso s | _ => None end;
     dirname_absolute := eq_refl |}.

(** *** The codec *)

(** The items of an array after the first, with the closing bracket. *)
Definition emit_items (d : nat) (l : list JSON) (k : string) : string :=
  fold_right (fun y acc => String "," (newline (S d) (emit (S d) y acc)))
             (newline d (String "]" k)) l.

(** The members of an object after the first, with the closing brace. *)
Definition emit_members (d : nat) (m : list (string * JSON)) (k : string) : string :=
  fold_right (fun '(key, y) acc =>
                String "," (newline (S d)
                  (quote key (String ":" (String " " (emit (S d) y acc))))))
             (newline d (String "}" k)) m.

(** A bound on the fuel that reading the text of a value takes. *)
Fixpoint jsize (v : JSON) : nat :=
  match v with
  | JArr l => S (fold_right (fun x acc => S (jsize x + acc)) 0 l)
  | JObj m => S (fold_right (fun '(_, x) acc => S (jsize x + acc)) 0 m)
  | _ => 1
  end.

(** What follows a value in a text: nothing, a comma, or a line break. *)
Definition delimited (k : string) : Prop :=
  match k with
  | EmptyString => True
  | String c _ => c = ","%char \/ c = LF
  end.

Definition no_digit_start (k : string) : Prop :=
  match k with
  | String c _ => digit_of c = None
  | EmptyString => True
  end.

Definition is_num_start (c : ascii) : bool :=
  Ascii.eqb c "-" || match digit_of c with Some _ => true | None => false end.

Definition items_size (l : list JSON) : nat :=
  fold_right (fun x acc => S (jsize x + acc)) 0 l.

Definition members_size (m : list (string * JSON)) : nat :=
  fold_right (fun '(_, x) acc => S (jsize x + acc)) 0 m.

(** What [parse_value] reads back from the text of [v]. *)
Definition reads_back (v : JSON) : Prop :=
  forall d fuel k, delimited k -> jsize v <= fuel ->
                   parse_value fuel (emit d v k) = Some (v, k).

Definition long_enough (v : JSON) : Prop :=
  forall d k, jsize v + String.length k <= String.length (emit d v k).

(** The required-field invariant of a page: [id] and [title] are present and
    truthy. *)
Definition required_fields_ok (page : JSON) : Prop :=
  truthy_opt (prop page "id") = true /\ truthy_opt (prop page "title") = true.


(** A test for [wf_json]. *)
Fixpoint distinct (l : list string) : bool :=
  match l with
  | k :: l' => forallb (fun k' => negb (k =? k')%string) l' && distinct l'
  | [] => true
  end.


(** *** The store *)

Section Vocabulary.
Context {host : Host}.

(** A write that passes the checks of [writePage] and gets to its I/O:
    the required fields are there, the ids agree, the id resolves to [dest],
    and the page on disk, if any, is readable ([existing]). *)
Definition write_reaches_io (pageId pageData : JSON) (w : World)
           (dest : string) (existing : option JSON) : Prop :=
  required_fields_ok pageData /\
  prop pageData "id" = Some pageId /\
  getSafeFilePath pageId = Ok dest /\
  fst (read_existing pageId w) = Ok existing.

End Vocabulary.




(** Example states.  The environment of the [n]-th write is the [n]-th entry
    of a script: the clock reading and the failure of the write sequence. *)
Definition scripted_env (script : list (Z * Fault)) (n : nat) : Env :=
  let '(t, f) := List.nth n script (0%Z, NoFault) in
  {| time_now := t; randomHex := "00c0ffee00c0ffee"; fault := f; unlink_fails := false |}.

(** No storage directory yet. *)
Definition empty_world (script : list (Z * Fault)) : World :=
  {| dir := None; clock := 0; env := scripted_env script |}.

Definition example_doc : JSON := JObj [("id", JStr "p1"); ("title", JStr "Hello")].

Definition example_doc2 : JSON := JObj [("id", JStr "p1"); ("title", JStr "Hello again")].

Definition wf_members (m : list (string * JSON)) : Prop :=
  NoDup (keys m) /\ Forall (fun kv => wf_json (snd kv)) m.

(** [example_doc], as the first write of a script that starts at
    2023-11-14T22:13:20.000Z persists it. *)
Definition example_stored : JSON :=
  JObj [("id", JStr "p1"); ("title", JStr "Hello");
        ("metadata", JObj [("updated", JStr "2023-11-14T22:13:20.000Z");
                           ("created", JStr "2023-11-14T22:13:20.000Z")])].

(** The state after that write: the page is in [p1.json]. *)
Definition one_page_world (script : list (Z * Fault)) : World :=
  {| dir := Some {[ "p1.json" := {| content := encode example_stored; mode := FILE_PERMISSIONS |} ]};
     clock := 1;
     env := scripted_env script |}.

Definition example_dest : string := "/app/src/data/pages/p1.json".



(** *** Listing *)

Section ListingVocabulary.
Context {host : Host}.

(** The names of the files of the storage directory. *)
Definition dir_entries (w : World) : list string :=
  match dir w with
  | Some m => map fst (map_to_list m)
  | None => []
  end.





End ListingVocabulary.

(** A page last updated before 1970, and a page without [updated]. *)
Definition old_page : JSON :=
  JObj [("id", JStr "old"); ("title", JStr "From 1969");
        ("metadata", JObj [("updated", JStr "1969-12-31T23:59:59.000Z")])].

Definition undated_page : JSON :=
  JObj [("id", JStr "undated"); ("title", JStr "No date")].

Definition stored (page : JSON) : File :=
  {| content := encode page; mode := FILE_PERMISSIONS |}.

Definition dated_world : World :=
  {| dir := Some (<["old.json" := stored old_page]> {[ "undated.json" := stored undated_page ]});
     clock := 0;
     env := scripted_env [] |}.

(** *** Search *)

(** A field that [searchPages] can match: absent, [null], or a string. *)
Definition text_or_missing (field : option JSON) : Prop :=
  match field with
  | None | Some JNull | Some (JStr _) => True
  | Some _ => False
  end.

Definition searchable (page : Summary) : Prop :=
  text_or_missing (s_id page) /\ text_or_missing (s_title page) /\
  text_or_missing (Some (s_slug page)).

(** The field is a string that contains the query, case-insensitively. *)
Definition field_contains (field : option JSON) (normalizedQuery : string) : bool :=
  match field with
  | Some (JStr s) => includes (toLowerCase s) normalizedQuery
  | _ => false
  end.

Definition summary_matches (normalizedQuery : string) (page : Summary) : bool :=
  field_contains (s_id page) normalizedQuery ||
  field_contains (s_title page) normalizedQuery ||
  field_contains (Some (s_slug page)) normalizedQuery.

(** A page whose title is a number, as [importPage] accepts it. *)
Definition numbered_page : JSON := JObj [("id", JStr "p3"); ("title", JNum 5)].

(** *** Restore *)

(** The documents of a bundle are accounted for. *)
Definition accounted (results : RestoreResults) : Prop :=
  total results = restored results + skipped results + length (errors results).

(** The text of a bundle with the pages [pages]. *)
Definition bundle_text (pages : list JSON) : string :=
  stringify (JObj [("version", JStr "1.0");
                   ("timestamp", JStr "2023-11-14T22:13:20.000Z");
                   ("pageCount", JNum (Z.of_nat (length pages)));
                   ("pages", JArr pages)]).

(** A page without its title. *)
Definition untitled_page : JSON := JObj [("id", JStr "p2")].


(* ===================================================================== *)
(** * Part I, continued: the other operations of the store               *)
(* ===================================================================== *)

(** ** Deleting a page *)

(** The result of an operation whose errors have the type [E]. *)
Inductive Outcome (E A : Type) : Type :=
| Returns (a : A)
| Throws (e : E).
Arguments Returns {E A} a.
Arguments Throws {E A} e.

(** The codes of the errors of [deletePage]: a code of [Error], or
    [DELETE_ERROR]. *)
Inductive DeleteError : Type :=
| Coded (e : Error)
| DELETE_ERROR.

(** What can go wrong in one [deletePage]: the overwrite of a secure delete
    fails (leaving the file as it was, or with some bytes written), the
    open / sync / close after it fails, or [fs.unlink] fails. *)
Inductive DeleteFault : Type :=
| NoDeleteFault
| OverwriteFails (residue : option string)
| SyncFails
| UnlinkFails.

(** What one [deletePage] gets from outside: [crypto.randomBytes (n)], as the
    text that the file holding these bytes reads as, and the I/O failures. *)
Record DeleteEnv : Type := {
  randomBytes : nat -> string;
  delete_fault : DeleteFault
}.

(** The size in bytes of a text in UTF-8: two bytes for a code unit from 128
    on. *)
Fixpoint byte_length (s : string) : nat :=
  match s with
  | String c r => (if (char_code c <? 128)%N then 1 else 2) + byte_length r
  | EmptyString => 0
  end.

Section Removal.
Context {host : Host}.

(** [(await fs.stat (p)).size] *)
Definition fs_stat_size (p : string) : M nat :=
  fun w => match file_at w p with
           | Some f => (Ok (byte_length (content f)), w)
           | None => (Err ENOENT, w)
           end.

(** [fs.open (p, 'r+')], [fd.sync ()], [fd.close ()] *)
Definition fs_sync (p : string) (fails : bool) : M unit :=
  fun w => if fails then (Err EIO, w)
           else match file_at w p with
                | Some _ => (Ok tt, w)
                | None => (Err ENOENT, w)
                end.

(** Delete a page from disk.  The result is the [pageId] of
    [{ success: true, pageId }]. *)
Definition deletePage (pageId : JSON) (secureDelete : bool) (e : DeleteEnv)
  : World -> Outcome DeleteError JSON * World :=
  fun w =>
    match getSafeFilePath pageId with
    | Err er => (Throws (Coded er), w)
    | Ok filePath =>
        match
          (fs_access filePath >>
           (if secureDelete then
              let* size := fs_stat_size filePath in
              fs_writeFile filePath (randomBytes e size) 438
                (match delete_fault e with OverwriteFails residue => Some residue | _ => None end) >>
              fs_sync filePath (match delete_fault e with SyncFails => true | _ => false end)
            else ret tt) >>
           fs_unlink filePath (match delete_fault e with UnlinkFails => true | _ => false end)) w
        with
        | (Ok _, w') => (Returns pageId, w')
        | (Err ENOENT, w') => (Throws (Coded PAGE_NOT_FOUND), w')
        | (Err _, w') => (Throws DELETE_ERROR, w')
        end
    end.

(** ** Export and backup *)


(** The body of the loop of [backupAllPages]: unreadable files are left
    out. *)
Definition backup_pages (w : World) (jsonFiles : list string) : list JSON :=
  flat_map (fun file =>
              match readPage (JStr (basename_json file)) w with
              | Ok page => [page]
              | Err _ => []
              end) jsonFiles.

(** The backup object. *)
Definition backup_object (now : string) (allPages : list JSON) : JSON :=
  JObj [("version", JStr "1.0");
        ("timestamp", JStr now);
        ("pageCount", JNum (Z.of_nat (length allPages)));
        ("pages", JArr allPages)].

(** Create a backup of all pages.  The time value of its [new Date ()] is
    that of the next environment. *)
Definition backupAllPages : M string :=
  let* allPages :=
    try_catch
      (ensurePagesDir >>
       let* files := fs_readdir_PAGES_DIR in
       let jsonFiles := List.filter (fun f => endsWith f ".json") files in
       fun w => (Ok (backup_pages w jsonFiles), w))
      (fun error => match error with
                    | ENOENT => ret []
                    | _ => throw error
                    end) in
  let* e := next_env in
  ret (stringify (backup_object (toISOString (time_now e)) allPages)).

End Removal.

(** ** Validators and slugs *)

(** [\w] *)
Definition is_word_char (c : ascii) : bool :=
  in_range 97 122 c || in_range 65 90 c || in_range 48 57 c || Ascii.eqb c "_".

(** [s.replace (/[^...]/g, '')]: the characters outside the class [keep] are
    removed. *)
Fixpoint remove_outside (keep : ascii -> bool) (s : string) : string :=
  match s with
  | String c r => if keep c then String c (remove_outside keep r) else remove_outside keep r
  | EmptyString => EmptyString
  end.

(** [s.replace (/[...]+/g, r)]: every maximal run of characters of the class
    becomes one [r].  [in_run] tells that the character before was of the
    class. *)
Fixpoint replace_runs (cls : ascii -> bool) (r : ascii) (in_run : bool) (s : string) : string :=
  match s with
  | String c rest =>
      if cls c then
        if in_run then replace_runs cls r true rest
        else String r (replace_runs cls r true rest)
      else String c (replace_runs cls r false rest)
  | EmptyString => EmptyString
  end.

Fixpoint strip_leading (c : ascii) (s : string) : string :=
  match s with
  | String x r => if Ascii.eqb x c then strip_leading c r else s
  | EmptyString => EmptyString
  end.

Fixpoint strip_trailing (c : ascii) (s : string) : string :=
  match s with
  | String x r =>
      match strip_trailing c r with
      | EmptyString => if Ascii.eqb x c then EmptyString else String x EmptyString
      | r' => String x r'
      end
  | EmptyString => EmptyString
  end.

(** [s.replace (/^-+|-+$/g, '')]: the hyphens at the start and at the end are
    removed. *)
Definition strip_hyphens (s : string) : string :=
  strip_trailing "-" (strip_leading "-" s).

(** The chain of [generateSlug]: lower case, trim, remove what is not a word
    character, white space or a hyphen, turn runs of white space, underscores
    and hyphens into one hyphen, strip the hyphens at both ends. *)
Definition slug_separator (c : ascii) : bool :=
  is_js_space c || Ascii.eqb c "_" || Ascii.eqb c "-".

Definition slug_kept (c : ascii) : bool :=
  is_word_char c || is_js_space c || Ascii.eqb c "-".

(** The helper of the page routes. *)
Module Routes.

(** [generateSlug] of [routes/pages.js]: generate slug from title. *)
Definition generateSlug (title : string) : string :=
  strip_hyphens
    (replace_runs slug_separator "-" false
       (remove_outside slug_kept (trim (toLowerCase title)))).

End Routes.

(** The result of a validator: [{ valid: true, value }] or
    [{ valid: false, error }]. *)
Inductive Validation : Type :=
| Valid (value : JSON)
| Invalid (error : string).

(** [[a-z0-9]] *)
Definition is_slug_char (c : ascii) : bool :=
  in_range 97 122 c || in_range 48 57 c.

(** [/^[a-z0-9]+(?:-[a-z0-9]+)*$/.test (s)]; [after_char] tells that the
    character before was of [[a-z0-9]], where the string may end and a hyphen
    may stand. *)
Fixpoint slug_from (after_char : bool) (s : string) : bool :=
  match s with
  | String c r =>
      if is_slug_char c then slug_from true r
      else if Ascii.eqb c "-" then after_char && slug_from false r
      else false
  | EmptyString => after_char
  end.

(** The validators utility: its patterns, the validators of page
    identifiers and slugs, and its [generateSlug]. *)
Module Validators.

Definition PATTERNS_PAGE_ID_test (s : string) : bool :=
  negb (s =? "")%string && string_forallb is_id_char s.

Definition PATTERNS_SLUG_test (s : string) : bool := slug_from false s.

(** Validate page ID. *)
Definition pageIdValidator (pageId : JSON) : Validation :=
  match pageId with
  | JStr s =>
      if negb (truthy pageId) then Invalid "Page ID is required"
      else
        let trimmed := trim s in
        if (String.length trimmed =? 0)%nat || (100 <? String.length trimmed)%nat
        then Invalid "Page ID must be 1-100 characters"
        else if negb (PATTERNS_PAGE_ID_test trimmed)
        then Invalid "Page ID can only contain letters, numbers, hyphens, underscores"
        else Valid (JStr trimmed)
  | _ => Invalid "Page ID is required"
  end.

(** Validate slug.  [None] is an absent slug. *)
Definition slugValidator (slug : option JSON) : Validation :=
  if negb (truthy_opt slug) then Valid JNull
  else
    match slug with
    | Some (JStr s) =>
        let trimmed := toLowerCase (trim s) in
        if (150 <? String.length trimmed)%nat
        then Invalid "Slug must not exceed 150 characters"
        else if negb (PATTERNS_SLUG_test trimmed)
        then Invalid "Slug must be lowercase with hyphens only"
        else Valid (JStr trimmed)
    | _ => Invalid "Slug must be a string"
    end.

(** Generate slug from text. *)
Definition generateSlug (text : JSON) : string :=
  match text with
  | JStr s =>
      if negb (truthy text) then EmptyString
      else
        strip_hyphens
          (replace_runs slug_separator "-" false
             (remove_outside slug_kept (trim (toLowerCase s))))
  | _ => EmptyString
  end.

End Validators.

(** ** Vocabulary of the further statements *)

Section FurtherVocabulary.
Context {host : Host}.

(** The name of the file of the page [s]. *)
Definition page_file (s : string) : string := trim s +:+ ".json".

(** The files of the storage directory; none when it does not exist. *)
Definition files_of (w : World) : gmap string File :=
  match dir w with
  | Some m => m
  | None => ∅
  end.

(** The pages of a backup of [w]: one for every entry [<stem>.json] whose
    page [readPage] reads, in the order of the entries. *)
Definition stored_pages (w : World) : list JSON :=
  backup_pages w (List.filter (fun f => endsWith f ".json") (dir_entries w)).

(** The world after [ensurePagesDir]. *)
Definition after_mkdir (w : World) : World := snd (ensurePagesDir w).

End FurtherVocabulary.

(** An environment of [deletePage] without failures. *)
Definition quiet_delete : DeleteEnv :=
  {| randomBytes := fun n => string_of_list_ascii (repeat "000"%char n);
     delete_fault := NoDeleteFault |}.

Definition failing_delete (f : DeleteFault) : DeleteEnv :=
  {| randomBytes := fun n => string_of_list_ascii (repeat "000"%char n);
     delete_fault := f |}.

(** A store whose file [p1.json] does not hold JSON text. *)
Definition corrupt_world : World :=
  {| dir := Some {[ "p1.json" := {| content := "{oops"; mode := FILE_PERMISSIONS |} ]};
     clock := 0;
     env := scripted_env [] |}.

(** The page data that [importPage] takes from [jsonData]: the value that
    a string parses to, or the object itself. *)
Definition import_reads (jsonData : JSON) : Result JSON :=
  match jsonData with
  | JStr text =>
      match JSON_parse text with
      | Some v => Ok v
      | None => Err INVALID_JSON
      end
  | JObj _ | JArr _ => Ok jsonData
  | _ => Err INVALID_IMPORT_DATA
  end.

(** The files of the pages of [w] are in [w'] as they are in [w]. *)
Definition keeps_pages (w w' : World) : Prop :=
  forall s, is_Some (files_of w !! page_file s) ->
            files_of w' !! page_file s = files_of w !! page_file s.

(** A string of characters of [[a-z0-9]] and hyphens without two hyphens in
    a row; [after_hyphen] tells that the character before was a hyphen, or
    that the string starts here. *)
Fixpoint spaced (after_hyphen : bool) (s : string) : bool :=
  match s with
  | String c r =>
      if is_slug_char c then spaced false r
      else if Ascii.eqb c "-" then negb after_hyphen && spaced true r
      else false
  | EmptyString => true
  end.
(* ===================================================================== *)
(** * Part II: verification                                               *)
(* ===================================================================== *)

(** ** Strings *)

Lemma append_cons (c : ascii) (s t : string) : String c s +:+ t = String c (s +:+ t).
Proof. reflexivity. Qed.

Lemma append_nil_l (t : string) : EmptyString +:+ t = t.
Proof. reflexivity. Qed.

Lemma append_assoc (s t u : string) : (s +:+ t) +:+ u = s +:+ (t +:+ u).
Proof. induction s as [|c s IH]; [reflexivity|]. rewrite !append_cons, IH. reflexivity. Qed.

Lemma length_append (s t : string) :
  String.length (s +:+ t) = String.length s + String.length t.
Proof. induction s as [|c s IH]; [reflexivity|]. rewrite append_cons. simpl. rewrite IH. reflexivity. Qed.






Lemma length_zero_iff (s : string) : (String.length s =? 0)%nat = true <-> s = EmptyString.
Proof. destruct s; simpl; split; congruence. Qed.

(** ** Paths *)

Lemma split_on_nonempty (s : string) : exists x l, split_on "/" s = x :: l.
Proof.
  induction s as [|c s (x & l & IH)]; simpl; [eauto|].
  destruct (Ascii.eqb c "/"); [eauto|]. rewrite IH. eauto.
Qed.

Lemma split_on_app (a b : string) :
  split_on "/" (a +:+ String "/" b) = split_on "/" a ++ split_on "/" b.
Proof.
  induction a as [|c a IH].
  - reflexivity.
  - rewrite append_cons. simpl. destruct (Ascii.eqb c "/").
    + rewrite IH. reflexivity.
    + rewrite IH. destruct (split_on_nonempty a) as (x & l & E). rewrite E. reflexivity.
Qed.

Lemma split_on_no_slash (s : string) : no_slash s -> split_on "/" s = [s].
Proof.
  unfold no_slash. induction s as [|c s IH]; simpl; [reflexivity|].
  intros [Hc Hs]%andb_prop. apply negb_true_iff in Hc. rewrite Hc, (IH Hs). reflexivity.
Qed.

Lemma split_on_segments (s : string) : Forall no_slash (split_on "/" s).
Proof.
  induction s as [|c s IH]; simpl.
  - repeat constructor.
  - destruct (Ascii.eqb c "/") eqn:E.
    + constructor; [reflexivity | exact IH].
    + destruct (split_on "/" s) as [|x l]; inversion IH; subst; constructor; auto.
      * unfold no_slash. simpl. rewrite E. reflexivity.
      * unfold no_slash in *. simpl. rewrite E. assumption.
Qed.

Lemma concat_cons2 (x y : string) (l : list string) :
  String.concat "/" (x :: y :: l) = x +:+ String "/" (String.concat "/" (y :: l)).
Proof. reflexivity. Qed.

Lemma split_on_concat (segs : list string) :
  segs <> [] -> Forall no_slash segs -> split_on "/" (String.concat "/" segs) = segs.
Proof.
  induction segs as [|x [|y l] IH]; intros Hne Hall; [congruence | |].
  - simpl. apply split_on_no_slash. inversion Hall; assumption.
  - rewrite concat_cons2, split_on_app. inversion Hall; subst.
    rewrite split_on_no_slash by assumption. rewrite IH by (congruence || assumption).
    reflexivity.
Qed.

Lemma concat_snoc (segs : list string) (x : string) :
  segs <> [] -> String.concat "/" (segs ++ [x]) = String.concat "/" segs +:+ String "/" x.
Proof.
  induction segs as [|a [|b l] IH]; intros Hne; [congruence | reflexivity |].
  change ((a :: b :: l) ++ [x]) with (a :: b :: (l ++ [x])).
  rewrite !concat_cons2. change (b :: l ++ [x]) with ((b :: l) ++ [x]).
  rewrite IH by congruence. rewrite append_assoc. reflexivity.
Qed.

Lemma push_segment_clean (abs : bool) (acc : list string) (seg : string) :
  clean_segment seg -> push_segment abs acc seg = seg :: acc.
Proof.
  intros (H1 & H2 & H3 & _). unfold push_segment.
  apply String.eqb_neq in H1, H2, H3. rewrite H1, H2, H3. reflexivity.
Qed.

Lemma fold_push_clean (abs : bool) (segs acc : list string) :
  Forall clean_segment segs -> fold_left (push_segment abs) segs acc = rev segs ++ acc.
Proof.
  revert acc. induction segs as [|x l IH]; intros acc H; [reflexivity|].
  inversion H; subst. simpl. rewrite push_segment_clean by assumption.
  rewrite IH by assumption. rewrite <- app_assoc. reflexivity.
Qed.

Lemma normalize_clean (segs : list string) :
  Forall clean_segment segs -> normalize_segments true (EmptyString :: segs) = segs.
Proof.
  intros H. unfold normalize_segments. simpl.
  change (push_segment true [] "") with (@nil string).
  rewrite fold_push_clean by assumption. rewrite app_nil_r. apply rev_involutive.
Qed.

Lemma push_segment_invariant (acc : list string) (seg : string) :
  Forall clean_segment acc -> no_slash seg -> Forall clean_segment (push_segment true acc seg).
Proof.
  intros Hacc Hseg. unfold push_segment.
  destruct (seg =? "")%string eqn:E1; [assumption|].
  destruct (seg =? ".")%string eqn:E2; [assumption|]. simpl.
  destruct (seg =? "..")%string eqn:E3.
  - destruct acc as [|x acc']; [constructor|].
    inversion Hacc as [|? ? (_ & _ & Hx & _) Hacc']; subst.
    apply String.eqb_neq in Hx. rewrite Hx. assumption.
  - constructor; [|assumption].
    apply String.eqb_neq in E1, E2, E3. repeat split; assumption.
Qed.

Lemma fold_push_invariant (segs acc : list string) :
  Forall clean_segment acc -> Forall no_slash segs ->
  Forall clean_segment (fold_left (push_segment true) segs acc).
Proof.
  revert acc. induction segs as [|x l IH]; intros acc Hacc Hsegs; [assumption|].
  inversion Hsegs; subst. simpl. apply IH; [|assumption].
  apply push_segment_invariant; assumption.
Qed.

Lemma strip_suffix_cons (suf : string) (c : ascii) (s : string) :
  strip_suffix suf (String c s) =
  if (String c s =? suf)%string then Some EmptyString
  else option_map (String c) (strip_suffix suf s).
Proof. reflexivity. Qed.

Lemma strip_suffix_slash (x tail : string) :
  tail <> "" -> strip_suffix "/" tail = None -> strip_suffix "/" (x +:+ tail) = None.
Proof.
  intros Hne Ht. induction x as [|c x IH]; [exact Ht|].
  rewrite append_cons, strip_suffix_cons, IH.
  replace (String c (x +:+ tail) =? "/")%string with false; [reflexivity|].
  symmetry. apply String.eqb_neq. intros E. injection E as _ E.
  destruct x; [rewrite append_nil_l in E; congruence | discriminate].
Qed.

Lemma is_prefix_append (a b : string) : is_prefix a (a +:+ b) = true.
Proof.
  induction a as [|c a IH]; [reflexivity|].
  rewrite append_cons. simpl. rewrite Ascii.eqb_refl. exact IH.
Qed.

Lemma drop_prefix_append (a b : string) : drop_prefix a (a +:+ b) = Some b.
Proof.
  induction a as [|c a IH]; [reflexivity|].
  rewrite append_cons. simpl. rewrite Ascii.eqb_refl. exact IH.
Qed.

Section PathProofs.
Context {host : Host}.

Lemma dirname_shape : exists d, __dirname = String "/" d.
Proof.
  pose proof dirname_absolute as H. unfold isAbsolute, startsWith, path_sep in H.
  destruct __dirname as [|c d]; [discriminate|]. cbn [is_prefix] in H.
  apply andb_prop in H as [H _]. apply Ascii.eqb_eq in H. subst c. eauto.
Qed.

Lemma concat_nonempty (x : string) (l : list string) :
  x <> "" -> String.concat "/" (x :: l) <> "".
Proof.
  intros Hx. destruct l as [|y l]; [exact Hx|].
  rewrite concat_cons2. destruct x; [congruence | discriminate].
Qed.

Lemma path_normalize_absolute (segs : list string) (last : string) (p : string) :
  Forall clean_segment (segs ++ [last]) -> strip_suffix "/" last = None ->
  normalize_segments true (split_on "/" p) = segs ++ [last] ->
  isAbsolute p = true -> (exists x, p = x +:+ last) ->
  path_normalize p = String "/" (String.concat "/" (segs ++ [last])).
Proof.
  intros Hclean Hstrip Hnorm Habs [x Hx].
  assert (Hlast : clean_segment last).
  { apply Forall_app in Hclean as [_ H]. inversion H; assumption. }
  unfold path_normalize, path_sep.
  assert (Hp : (p =? "")%string = false).
  { apply String.eqb_neq. intros ->. discriminate. }
  rewrite Hp, Habs, Hnorm.
  assert (Hbody : (String.concat "/" (segs ++ [last]) =? "")%string = false).
  { apply String.eqb_neq. destruct segs as [|a segs'].
    - simpl. apply Hlast.
    - apply concat_nonempty. inversion Hclean as [|? ? Ha _]; subst. apply Ha. }
  rewrite Hbody.
  assert (Hend : endsWith p "/" = false).
  { unfold endsWith. rewrite Hx, strip_suffix_slash; [reflexivity | apply Hlast | assumption]. }
  rewrite Hend. reflexivity.
Qed.

Lemma clean_data : clean_segment "data".
Proof. repeat split; discriminate. Qed.

Lemma clean_pages : clean_segment "pages".
Proof. repeat split; discriminate. Qed.

(** The storage directory is an absolute path in normal form. *)
Lemma PAGES_DIR_shape :
  exists segs, segs <> [] /\ Forall clean_segment segs /\
               PAGES_DIR = String "/" (String.concat "/" segs).
Proof.
  destruct dirname_shape as [d Hd].
  set (acc1 := fold_left (push_segment true) (split_on "/" __dirname) []).
  set (acc2 := push_segment true acc1 "..").
  assert (H1 : Forall clean_segment acc1).
  { apply fold_push_invariant; [constructor | apply split_on_segments]. }
  assert (H2 : Forall clean_segment acc2).
  { apply push_segment_invariant; [assumption | reflexivity]. }
  exists ((rev acc2 ++ ["data"]) ++ ["pages"]).
  assert (Hclean : Forall clean_segment ((rev acc2 ++ ["data"]) ++ ["pages"])).
  { repeat (apply Forall_app; split); try (constructor; [|constructor]).
    - apply Forall_rev. assumption.
    - apply clean_data.
    - apply clean_pages. }
  split; [destruct (rev acc2); discriminate|]. split; [assumption|].
  unfold PAGES_DIR, path_join.
  assert (Hf : List.filter (fun s => negb (s =? "")%string) [__dirname; ".."; "data"; "pages"]
               = [__dirname; ".."; "data"; "pages"]).
  { rewrite Hd. reflexivity. }
  rewrite Hf. unfold path_sep.
  assert (Hcat : String.concat "/" [__dirname; ".."; "data"; "pages"]
                 = (__dirname +:+ "/../data/") +:+ "pages").
  { cbn [String.concat]. rewrite !append_assoc. reflexivity. }
  apply path_normalize_absolute; [assumption | reflexivity | | | ].
  - rewrite Hcat.
    replace ((__dirname +:+ "/../data/") +:+ "pages")
      with (__dirname +:+ String "/" (".." +:+ String "/" ("data" +:+ String "/" "pages")))
      by (rewrite !append_assoc; reflexivity).
    rewrite !split_on_app. unfold normalize_segments.
    rewrite fold_left_app. fold acc1.
    change (split_on "/" ".." ++ split_on "/" "data" ++ split_on "/" "pages")
      with ([".."; "data"; "pages"]).
    cbn [fold_left]. fold acc2.
    rewrite !push_segment_clean by (apply clean_data || apply clean_pages).
    cbn [rev]. reflexivity.
  - rewrite Hd. reflexivity.
  - exists (__dirname +:+ "/../data/"). exact Hcat.
Qed.

Lemma path_resolve_normal (segs : list string) :
  segs <> [] -> Forall clean_segment segs ->
  path_resolve (String "/" (String.concat "/" segs)) = String "/" (String.concat "/" segs).
Proof.
  intros Hne Hclean. unfold path_resolve, path_sep.
  change (isAbsolute (String "/" (String.concat "/" segs))) with true. cbv iota.
  change (split_on "/" (String "/" (String.concat "/" segs)))
    with (EmptyString :: split_on "/" (String.concat "/" segs)).
  rewrite split_on_concat; [| assumption |].
  - rewrite normalize_clean by assumption. reflexivity.
  - eapply Forall_impl; [exact Hclean|]. intros x Hx. apply Hx.
Qed.

Lemma path_join_clean (segs : list string) (file : string) :
  segs <> [] -> Forall clean_segment segs ->
  clean_segment file -> strip_suffix "/" file = None ->
  path_join [String "/" (String.concat "/" segs); file]
  = String "/" (String.concat "/" (segs ++ [file])).
Proof.
  intros Hne Hclean Hfile Hstrip. unfold path_join.
  assert (Hf : List.filter (fun s => negb (s =? "")%string)
                 [String "/" (String.concat "/" segs); file]
               = [String "/" (String.concat "/" segs); file]).
  { cbn [List.filter]. change (String "/" (String.concat "/" segs) =? "")%string with false.
    cbn [negb]. destruct Hfile as [Hf _]. apply String.eqb_neq in Hf. rewrite Hf. reflexivity. }
  rewrite Hf. unfold path_sep. rewrite concat_cons2. cbn [String.concat].
  assert (Hno : Forall no_slash segs).
  { eapply Forall_impl; [exact Hclean|]. intros x Hx. apply Hx. }
  apply path_normalize_absolute.
  - apply Forall_app; split; [assumption | constructor; [assumption | constructor]].
  - assumption.
  - rewrite split_on_app.
    change (split_on "/" (String "/" (String.concat "/" segs)))
      with (EmptyString :: split_on "/" (String.concat "/" segs)).
    rewrite split_on_concat by assumption.
    rewrite split_on_no_slash by apply Hfile.
    change ((EmptyString :: segs) ++ [file]) with (EmptyString :: (segs ++ [file])).
    apply normalize_clean.
    apply Forall_app; split; [assumption | constructor; [assumption | constructor]].
  - reflexivity.
  - exists (String "/" (String.concat "/" segs) +:+ "/"). rewrite append_assoc. reflexivity.
Qed.

Lemma is_id_char_not_slash (c : ascii) : is_id_char c = true -> negb (Ascii.eqb c "/") = true.
Proof.
  intros H. destruct (Ascii.eqb c "/") eqn:E; [|reflexivity].
  apply Ascii.eqb_eq in E. subst c. discriminate.
Qed.

Lemma id_file_clean (name : string) :
  string_forallb is_id_char name = true ->
  clean_segment (name +:+ ".json") /\ strip_suffix "/" (name +:+ ".json") = None.
Proof.
  intros Hid.
  assert (Hlen : 5 <= String.length (name +:+ ".json")).
  { rewrite length_append. simpl. lia. }
  split; [|apply strip_suffix_slash; [discriminate | reflexivity]].
  repeat split; try (intros E; rewrite E in Hlen; simpl in Hlen; lia).
  unfold no_slash. clear Hlen. induction name as [|c name IH]; [reflexivity|].
  cbn [string_forallb] in Hid. apply andb_prop in Hid as [Hc Hrest].
  rewrite append_cons. cbn [string_forallb].
  rewrite (is_id_char_not_slash c Hc). exact (IH Hrest).
Qed.

(** A well-formed identifier resolves to its file in the storage directory. *)
Lemma getSafeFilePath_valid (s : string) :
  PAGE_ID_PATTERN_test (trim s) = true ->
  String.length (trim s) <= MAX_PAGE_ID_LENGTH ->
  getSafeFilePath (JStr s) = Ok (PAGES_DIR +:+ String "/" (trim s +:+ ".json")) /\
  path_resolve PAGES_DIR = PAGES_DIR.
Proof.
  intros Hpat Hlen.
  destruct PAGES_DIR_shape as (segs & Hne & Hclean & HP).
  assert (Hres : path_resolve PAGES_DIR = PAGES_DIR).
  { rewrite HP. apply path_resolve_normal; assumption. }
  split; [|exact Hres].
  unfold PAGE_ID_PATTERN_test in Hpat. apply andb_prop in Hpat as [Hnonempty Hchars].
  apply negb_true_iff, String.eqb_neq in Hnonempty.
  destruct (id_file_clean (trim s) Hchars) as [Hfile Hstrip].
  unfold getSafeFilePath.
  assert (Hs : truthy (JStr s) = true).
  { simpl. apply negb_true_iff, String.eqb_neq. intros ->. apply Hnonempty. reflexivity. }
  rewrite Hs. cbn [negb].
  assert (H0 : (String.length (trim s) =? 0)%nat = false).
  { apply Nat.eqb_neq. destruct (trim s); [congruence | simpl; lia]. }
  assert (H1 : (MAX_PAGE_ID_LENGTH <? String.length (trim s))%nat = false).
  { apply Nat.ltb_ge. exact Hlen. }
  rewrite H0, H1. cbn [orb].
  unfold PAGE_ID_PATTERN_test.
  assert (H2 : (trim s =? "")%string = false) by (apply String.eqb_neq; assumption).
  rewrite H2, Hchars. cbn [negb andb].
  rewrite Hres. rewrite HP.
  rewrite path_join_clean by assumption.
  rewrite path_resolve_normal.
  2:{ destruct segs; discriminate. }
  2:{ apply Forall_app; split; [assumption | constructor; [assumption | constructor]]. }
  rewrite concat_snoc by assumption.
  unfold startsWith, path_sep.
  change (String "/" (String.concat "/" segs +:+ String "/" (trim s +:+ ".json")))
    with (String "/" (String.concat "/" segs) +:+ String "/" (trim s +:+ ".json")).
  replace (String "/" (String.concat "/" segs) +:+ String "/" (trim s +:+ ".json"))
    with ((String "/" (String.concat "/" segs) +:+ "/") +:+ (trim s +:+ ".json"))
    by (rewrite append_assoc; reflexivity).
  rewrite is_prefix_append. reflexivity.
Qed.

End PathProofs.

(** ** The path resolver *)

Lemma string_forallb_false (f : ascii -> bool) (s : string) :
  string_forallb f s = false <-> exists c, contains_char s c /\ f c = false.
Proof.
  unfold contains_char. induction s as [|a s IH]; simpl.
  - split; [discriminate | intros (c & [] & _)].
  - rewrite andb_false_iff, IH. split.
    + intros [Ha | (c & Hin & Hc)]; [exists a; auto | exists c; auto].
    + intros (c & [<- | Hin] & Hc); [left; assumption | right; exists c; auto].
Qed.

Lemma string_forallb_true (f : ascii -> bool) (s : string) :
  string_forallb f s = true <-> forall c, contains_char s c -> f c = true.
Proof.
  unfold contains_char. induction s as [|a s IH]; simpl.
  - split; [intros _ c [] | reflexivity].
  - rewrite andb_true_iff, IH. split.
    + intros [Ha Hs] c [<- | Hin]; auto.
    + intros H. split; [apply H; left; reflexivity | intros c Hc; apply H; right; assumption].
Qed.

Section ResolverProofs.
Context {host : Host}.

Lemma invalid_identifier_spec (pageId : JSON) :
  invalid_identifier pageId <-> getSafeFilePath pageId = Err INVALID_PAGE_ID.
Proof.
  destruct pageId as [| b | n | s | l | m]; simpl; try (split; [reflexivity | exact (fun _ => I)]).
  destruct (s =? "")%string eqn:Es; cbn [negb].
  { apply String.eqb_eq in Es. subst s. split; [reflexivity | left; reflexivity]. }
  destruct (String.length (trim s) =? 0)%nat eqn:E0; cbn [orb].
  { apply length_zero_iff in E0. split; [reflexivity | left; assumption]. }
  destruct (MAX_PAGE_ID_LENGTH <? String.length (trim s))%nat eqn:E1.
  { apply Nat.ltb_lt in E1. split; [reflexivity | right; left; assumption]. }
  assert (Hne : trim s <> "").
  { intros E. rewrite E in E0. discriminate. }
  apply Nat.ltb_ge in E1.
  unfold PAGE_ID_PATTERN_test.
  replace (trim s =? "")%string with false by (symmetry; apply String.eqb_neq; assumption).
  cbn [negb andb].
  destruct (string_forallb is_id_char (trim s)) eqn:Ec; cbn [negb].
  - split.
    + intros [H | [H | (c & Hin & Hc)]]; [congruence | lia |].
      rewrite string_forallb_true in Ec. rewrite (Ec c Hin) in Hc. discriminate.
    + destruct (startsWith _ _); discriminate.
  - split; [reflexivity|]. intros _. right; right. apply string_forallb_false. assumption.
Qed.

Lemma getSafeFilePath_string (s : string) :
  getSafeFilePath (JStr s) =
  if negb (negb (s =? "")%string) then Err INVALID_PAGE_ID
  else if (String.length (trim s) =? 0)%nat || (MAX_PAGE_ID_LENGTH <? String.length (trim s))%nat
  then Err INVALID_PAGE_ID
  else if negb (PAGE_ID_PATTERN_test (trim s)) then Err INVALID_PAGE_ID
  else if negb (startsWith (path_resolve (path_join [PAGES_DIR; trim s +:+ ".json"]))
                           (path_resolve PAGES_DIR +:+ path_sep))
  then Err PATH_TRAVERSAL
  else Ok (path_resolve (path_join [PAGES_DIR; trim s +:+ ".json"])).
Proof. reflexivity. Qed.

Lemma getSafeFilePath_Ok_valid (pageId : JSON) (p : string) :
  getSafeFilePath pageId = Ok p ->
  exists s, pageId = JStr s /\ valid_identifier (trim s).
Proof.
  destruct pageId as [| b | n | s | l | m]; simpl; try discriminate.
  intros H. exists s. split; [reflexivity|]. unfold valid_identifier.
  destruct (s =? "")%string; cbn [negb] in H; [discriminate|].
  destruct (String.length (trim s) =? 0)%nat; cbn [orb] in H; [discriminate|].
  destruct (MAX_PAGE_ID_LENGTH <? String.length (trim s))%nat eqn:E1; [discriminate|].
  apply Nat.ltb_ge in E1.
  destruct (PAGE_ID_PATTERN_test (trim s)); cbn [negb] in H; [|discriminate].
  split; [reflexivity | assumption].
Qed.

Lemma getSafeFilePath_error_codes (pageId : JSON) (e : Error) :
  getSafeFilePath pageId = Err e -> e = INVALID_PAGE_ID \/ e = PATH_TRAVERSAL.
Proof.
  intros H. destruct pageId as [| b | n | s | l | m];
    try (injection H as <-; left; reflexivity).
  rewrite getSafeFilePath_string in H.
  destruct (negb (negb (s =? "")%string)); [injection H as <-; left; reflexivity|].
  destruct (_ || _); [injection H as <-; left; reflexivity|].
  destruct (negb (PAGE_ID_PATTERN_test (trim s))); [injection H as <-; left; reflexivity|].
  destruct (negb (startsWith _ _)); [injection H as <-; right; reflexivity | discriminate].
Qed.

(** C3 (amended): [getSafeFilePath] refuses with [INVALID_PAGE_ID] exactly the
    identifiers that are no string or that, after trimming, are empty, longer
    than 100 characters or have a character outside [[A-Za-z0-9_-]]; it
    refuses with [PATH_TRAVERSAL] exactly when the identifier passes and the
    resolved candidate path does not start with the resolved storage directory
    and the separator; it throws no other error; and a path it returns is a
    file directly inside the storage directory. *)
Theorem getSafeFilePath_confines (pageId : JSON) :
  (invalid_identifier pageId <-> getSafeFilePath pageId = Err INVALID_PAGE_ID) /\
  (getSafeFilePath pageId = Err PATH_TRAVERSAL <->
   exists s, pageId = JStr s /\ ~ invalid_identifier pageId /\
     startsWith (path_resolve (path_join [PAGES_DIR; trim s +:+ ".json"]))
                (path_resolve PAGES_DIR +:+ path_sep) = false) /\
  (forall e, getSafeFilePath pageId = Err e -> e = INVALID_PAGE_ID \/ e = PATH_TRAVERSAL) /\
  (forall p, getSafeFilePath pageId = Ok p ->
   exists name, clean_segment name /\ p = path_resolve PAGES_DIR +:+ String "/" name).
Proof.
  split; [apply invalid_identifier_spec|]. split; [|split].
  - split.
    + intros H. destruct pageId as [| b | n | s | l | m]; try discriminate.
      exists s. split; [reflexivity|]. split.
      * intros Hinv. apply invalid_identifier_spec in Hinv. congruence.
      * rewrite getSafeFilePath_string in H.
        destruct (negb (negb (s =? "")%string)); [discriminate|].
        destruct (_ || _); [discriminate|].
        destruct (negb (PAGE_ID_PATTERN_test (trim s))); [discriminate|].
        destruct (startsWith _ _); [discriminate | reflexivity].
    + intros (s & -> & Hinv & Hout).
      rewrite invalid_identifier_spec in Hinv. rewrite getSafeFilePath_string in Hinv |- *.
      destruct (negb (negb (s =? "")%string)); [congruence|].
      destruct (_ || _); [congruence|].
      destruct (negb (PAGE_ID_PATTERN_test (trim s))); [congruence|].
      rewrite Hout. reflexivity.
  - apply getSafeFilePath_error_codes.
  - intros p H. destruct (getSafeFilePath_Ok_valid _ _ H) as (s & -> & Hpat & Hlen).
    destruct (getSafeFilePath_valid s Hpat Hlen) as [E Hres].
    rewrite E in H. injection H as <-.
    exists (trim s +:+ ".json"). split; [|rewrite Hres; reflexivity].
    unfold PAGE_ID_PATTERN_test in Hpat. apply andb_prop in Hpat as [_ Hchars].
    apply id_file_clean. assumption.
Qed.



End ResolverProofs.

(** An identifier with a space in front is accepted, though it contains a
    character outside [[A-Za-z0-9_-]]. *)
Lemma untrimmed_identifier_accepted :
  invalid_identifier_untrimmed (JStr " a") /\
  @getSafeFilePath example_host (JStr " a") = Ok "/app/src/data/pages/a.json".
Proof.
  split; [|vm_compute; reflexivity].
  right; right. exists " "%char. split; [left; reflexivity | reflexivity].
Qed.


(** ** The codec: reading back what was written *)

Lemma JSON_ind (P : JSON -> Prop) :
  P JNull -> (forall b, P (JBool b)) -> (forall n, P (JNum n)) -> (forall s, P (JStr s)) ->
  (forall l, Forall P l -> P (JArr l)) ->
  (forall m, Forall (fun kv => P (snd kv)) m -> P (JObj m)) ->
  forall v, P v.
Proof.
  intros Hnull Hbool Hnum Hstr Harr Hobj.
  fix IH 1. intros [| b | n | s | l | m].
  - exact Hnull.
  - apply Hbool.
  - apply Hnum.
  - apply Hstr.
  - apply Harr. induction l as [|x l IHl]; constructor; [apply IH | exact IHl].
  - apply Hobj. induction m as [|[k x] m IHm]; constructor; [apply IH | exact IHm].
Qed.

Lemma wf_json_arr (l : list JSON) : wf_json (JArr l) <-> Forall wf_json l.
Proof.
  induction l as [|x l IH]; simpl.
  - split; [constructor | exact (fun _ => I)].
  - split.
    + intros [Hx Hl]. constructor; [exact Hx | apply IH; exact Hl].
    + intros H. inversion H; subst. split; [assumption | apply IH; assumption].
Qed.

Lemma wf_json_obj (m : list (string * JSON)) :
  wf_json (JObj m) <-> NoDup (keys m) /\ Forall (fun kv => wf_json (snd kv)) m.
Proof.
  simpl. apply and_iff_compat_l.
  induction m as [|[k x] m IH]; simpl.
  - split; [constructor | exact (fun _ => I)].
  - split.
    + intros [Hx Hm]. constructor; [exact Hx | apply IH; exact Hm].
    + intros H. inversion H; subst. split; [assumption | apply IH; assumption].
Qed.

Lemma emit_arr_cons (d : nat) (x : JSON) (l : list JSON) (k : string) :
  emit d (JArr (x :: l)) k = String "[" (newline (S d) (emit (S d) x (emit_items d l k))).
Proof. reflexivity. Qed.

Lemma emit_obj_cons (d : nat) (key : string) (x : JSON) (m : list (string * JSON)) (k : string) :
  emit d (JObj ((key, x) :: m)) k =
  String "{" (newline (S d) (quote key (String ":" (String " " (emit (S d) x (emit_members d m k)))))).
Proof. reflexivity. Qed.

Lemma emit_items_cons (d : nat) (y : JSON) (l : list JSON) (k : string) :
  emit_items d (y :: l) k = String "," (newline (S d) (emit (S d) y (emit_items d l k))).
Proof. reflexivity. Qed.

Lemma emit_members_cons (d : nat) (key : string) (y : JSON) (m : list (string * JSON)) (k : string) :
  emit_members d ((key, y) :: m) k =
  String "," (newline (S d) (quote key (String ":" (String " " (emit (S d) y (emit_members d m k)))))).
Proof. reflexivity. Qed.

Lemma skip_ws_indent (d : nat) (k : string) : skip_ws (indent d k) = skip_ws k.
Proof. induction d as [|d IH]; [reflexivity | exact IH]. Qed.

Lemma skip_ws_newline (d : nat) (k : string) : skip_ws (newline d k) = skip_ws k.
Proof. unfold newline. cbn [skip_ws]. change (is_json_ws LF) with true. cbv iota. apply skip_ws_indent. Qed.

Lemma skip_ws_idem (s : string) : skip_ws (skip_ws s) = skip_ws s.
Proof.
  induction s as [|c s IH]; [reflexivity|]. cbn [skip_ws].
  destruct (is_json_ws c) eqn:E; [exact IH|]. cbn [skip_ws]. rewrite E. reflexivity.
Qed.

(** Reading starts at the first character that is no white space. *)
Lemma parse_value_skip_ws (n : nat) (s : string) : parse_value n (skip_ws s) = parse_value n s.
Proof. destruct n; [reflexivity|]. cbn [parse_value]. rewrite skip_ws_idem. reflexivity. Qed.

Lemma parse_elements_skip_ws (n : nat) (s : string) :
  parse_elements n (skip_ws s) = parse_elements n s.
Proof. destruct n; [reflexivity|]. cbn [parse_elements]. rewrite parse_value_skip_ws. reflexivity. Qed.

Lemma parse_members_skip_ws (n : nat) (s : string) :
  parse_members n (skip_ws s) = parse_members n s.
Proof. destruct n; [reflexivity|]. cbn [parse_members]. rewrite skip_ws_idem. reflexivity. Qed.

(** *** Strings *)

Lemma parse_chars_emit_char (c : ascii) (rest : string) :
  parse_chars (emit_char c rest) = cons_char c (parse_chars rest).
Proof. destruct c as [[] [] [] [] [] [] [] []]; reflexivity. Qed.

Lemma parse_chars_emit (s k : string) :
  parse_chars (emit_chars s (String DQ k)) = Some (s, k).
Proof.
  induction s as [|c s IH]; [reflexivity|].
  cbn [emit_chars]. rewrite parse_chars_emit_char, IH. reflexivity.
Qed.

(** *** Numbers *)

Lemma delimited_no_digit (k : string) : delimited k -> no_digit_start k.
Proof. destruct k as [|c k]; [exact (fun H => H)|]. intros [-> | ->]; reflexivity. Qed.

Lemma delimited_no_fraction (k : string) : delimited k -> starts_fraction k = false.
Proof. destruct k as [|c k]; [reflexivity|]. intros [-> | ->]; reflexivity. Qed.

Lemma read_digits_stop (k : string) : no_digit_start k -> read_digits k = (Nil, k).
Proof. destruct k as [|c k]; [reflexivity|]. simpl. intros ->. reflexivity. Qed.

Lemma read_digits_emit (u : uint) (k : string) :
  no_digit_start k -> read_digits (emit_uint u k) = (u, k).
Proof.
  intros Hk. induction u as [|u IH|u IH|u IH|u IH|u IH|u IH|u IH|u IH|u IH|u IH];
    [apply read_digits_stop; assumption | ..];
    cbn [emit_uint read_digits]; rewrite IH; reflexivity.
Qed.

Lemma unorm_fixed_literal (u : uint) : unorm u = u -> int_literal_ok u = true.
Proof.
  destruct u as [|u|u|u|u|u|u|u|u|u|u]; try reflexivity; [discriminate|].
  intros H. unfold unorm in H. cbn [nzhead] in H.
  pose proof (nb_digits_nzhead u) as Hlen.
  destruct (nzhead u) eqn:E; try discriminate.
  - injection H as <-. reflexivity.
  - injection H as ->. cbn [nb_digits] in Hlen. lia.
Qed.

Lemma to_uint_literal (p : positive) : int_literal_ok (Pos.to_uint p) = true.
Proof.
  apply unorm_fixed_literal.
  change (Pos.to_uint p) with (N.to_uint (Npos p)).
  rewrite <- (DecimalN.Unsigned.of_to (Npos p)) at 2.
  symmetry. apply DecimalN.Unsigned.to_of.
Qed.

Lemma of_to_uint (p : positive) : N.of_uint (Pos.to_uint p) = Npos p.
Proof. exact (DecimalN.Unsigned.of_to (Npos p)). Qed.

Lemma parse_unsigned_emit (p : positive) (k : string) :
  delimited k -> safe_integer (Zpos p) = true ->
  parse_unsigned (emit_uint (Pos.to_uint p) k) = Some (Zpos p, k).
Proof.
  intros Hk Hsafe. unfold parse_unsigned.
  rewrite read_digits_emit by (apply delimited_no_digit; assumption).
  rewrite to_uint_literal, delimited_no_fraction by assumption.
  cbn [negb andb]. rewrite of_to_uint. cbn [Z.of_N]. rewrite Hsafe. reflexivity.
Qed.

Lemma emit_uint_head (u : uint) (k : string) :
  int_literal_ok u = true ->
  exists c r, emit_uint u k = String c r /\ is_num_start c = true /\ Ascii.eqb c "-" = false.
Proof.
  destruct u; try discriminate; intros _; eexists _, _; (split; [reflexivity | split; reflexivity]).
Qed.

Lemma emit_Z_head (n : Z) (k : string) :
  exists c r, emit_Z n k = String c r /\ is_num_start c = true.
Proof.
  destruct n as [|p|p]; cbn [emit_Z].
  - eexists _, _; split; reflexivity.
  - destruct (emit_uint_head (Pos.to_uint p) k (to_uint_literal p)) as (c & r & E & H & _).
    exists c, r. split; assumption.
  - eexists _, _; split; reflexivity.
Qed.

Lemma safe_integer_opp (n : Z) : safe_integer (- n) = safe_integer n.
Proof. unfold safe_integer. rewrite Z.abs_opp. reflexivity. Qed.

Lemma parse_number_emit (n : Z) (k : string) :
  delimited k -> safe_integer n = true -> parse_number (emit_Z n k) = Some (n, k).
Proof.
  intros Hk Hsafe. destruct n as [|p|p]; cbn [emit_Z].
  - unfold parse_number. change (Ascii.eqb "0" "-") with false. cbv iota.
    unfold parse_unsigned. cbn [read_digits]. change (digit_of "0") with (Some D0).
    cbv iota. rewrite read_digits_stop by (apply delimited_no_digit; assumption).
    rewrite delimited_no_fraction by assumption. reflexivity.
  - destruct (emit_uint_head (Pos.to_uint p) k (to_uint_literal p)) as (c & r & E & _ & Hc).
    pose proof (parse_unsigned_emit p k Hk Hsafe) as H. rewrite E in H |- *.
    unfold parse_number. rewrite Hc. exact H.
  - unfold parse_number. change (Ascii.eqb "-" "-") with true. cbv iota.
    assert (Hpos : safe_integer (Zpos p) = true)
      by (rewrite <- safe_integer_opp; exact Hsafe).
    rewrite (parse_unsigned_emit p k Hk Hpos). reflexivity.
Qed.

(** A number is read by the last branch of [parse_value]. *)
Lemma num_start_dispatch (c : ascii) :
  is_num_start c = true ->
  is_json_ws c = false /\ Ascii.eqb c "n" = false /\ Ascii.eqb c "t" = false /\
  Ascii.eqb c "f" = false /\ Ascii.eqb c DQ = false /\ Ascii.eqb c "[" = false /\
  Ascii.eqb c "{" = false /\ Ascii.eqb c "]" = false.
Proof.
  destruct c as [[] [] [] [] [] [] [] []]; intros H; try discriminate H;
    repeat split; reflexivity.
Qed.

Lemma parse_value_number (fuel : nat) (n : Z) (k : string) :
  delimited k -> safe_integer n = true ->
  parse_value (S fuel) (emit_Z n k) = Some (JNum n, k).
Proof.
  intros Hk Hsafe. destruct (emit_Z_head n k) as (c & r & E & Hc).
  pose proof (parse_number_emit n k Hk Hsafe) as H. rewrite E in H |- *.
  destruct (num_start_dispatch c Hc) as (Hws & H1 & H2 & H3 & H4 & H5 & H6 & _).
  cbn [parse_value skip_ws]. rewrite Hws, H1, H2, H3, H4, H5, H6, H. reflexivity.
Qed.

(** *** Values *)

Lemma parse_value_array (fuel : nat) (r : string) :
  parse_value (S fuel) (String "[" r) =
  match skip_ws r with
  | String c' r' =>
      if Ascii.eqb c' "]" then Some (JArr [], r')
      else match parse_elements fuel r with
           | Some (l, r'') => Some (JArr l, r'')
           | None => None
           end
  | EmptyString => None
  end.
Proof. reflexivity. Qed.

Lemma parse_value_object (fuel : nat) (r : string) :
  parse_value (S fuel) (String "{" r) =
  match skip_ws r with
  | String c' r' =>
      if Ascii.eqb c' "}" then Some (JObj [], r')
      else match parse_members fuel r with
           | Some (m, r'') => Some (JObj m, r'')
           | None => None
           end
  | EmptyString => None
  end.
Proof. reflexivity. Qed.

Lemma parse_value_string (fuel : nat) (s k : string) :
  parse_value (S fuel) (quote s k) = Some (JStr s, k).
Proof.
  unfold quote. cbn [parse_value skip_ws].
  change (is_json_ws DQ) with false. cbv iota.
  change (Ascii.eqb DQ "n") with false. change (Ascii.eqb DQ "t") with false.
  change (Ascii.eqb DQ "f") with false. change (Ascii.eqb DQ DQ) with true. cbv iota.
  rewrite parse_chars_emit. reflexivity.
Qed.

Lemma parse_elements_step (fuel : nat) (s : string) :
  parse_elements (S fuel) s =
  match parse_value fuel s with
  | Some (v, r) =>
      match skip_ws r with
      | String c r' =>
          if Ascii.eqb c "," then
            match parse_elements fuel r' with
            | Some (l, r'') => Some (v :: l, r'')
            | None => None
            end
          else if Ascii.eqb c "]" then Some ([v], r')
          else None
      | EmptyString => None
      end
  | None => None
  end.
Proof. reflexivity. Qed.

Lemma parse_members_quote (fuel : nat) (key r : string) :
  parse_members (S fuel) (quote key (String ":" r)) =
  match parse_value fuel r with
  | Some (v, r3) =>
      match skip_ws r3 with
      | String c' r4 =>
          if Ascii.eqb c' "," then
            match parse_members fuel r4 with
            | Some (m, r5) => Some (obj_cons key v m, r5)
            | None => None
            end
          else if Ascii.eqb c' "}" then Some ([(key, v)], r4)
          else None
      | EmptyString => None
      end
  | None => None
  end.
Proof.
  unfold quote. cbn [parse_members skip_ws].
  change (is_json_ws DQ) with false. cbv iota.
  change (Ascii.eqb DQ DQ) with true. cbv iota.
  rewrite parse_chars_emit. cbn [skip_ws].
  change (is_json_ws ":") with false. cbv iota.
  change (Ascii.eqb ":" ":") with true. cbv iota. reflexivity.
Qed.

(** The text of a value starts with a character that is no white space and
    no closing bracket. *)
Lemma emit_head (d : nat) (v : JSON) (k : string) :
  exists c r, emit d v k = String c r /\ is_json_ws c = false /\ Ascii.eqb c "]" = false.
Proof.
  destruct v as [| [] | n | s | [|x l] | [|[key x] m]];
    try (eexists _, _; split; [reflexivity | split; reflexivity]).
  destruct (emit_Z_head n k) as (c & r & E & Hc).
  destruct (num_start_dispatch c Hc) as (Hws & _ & _ & _ & _ & _ & _ & Hb).
  exists c, r. cbn [emit]. auto.
Qed.

Lemma skip_ws_emit (d : nat) (v : JSON) (k : string) : skip_ws (emit d v k) = emit d v k.
Proof.
  destruct (emit_head d v k) as (c & r & E & Hws & _). rewrite E. cbn [skip_ws].
  rewrite Hws. reflexivity.
Qed.

Lemma delimited_items (d : nat) (l : list JSON) (k : string) : delimited (emit_items d l k).
Proof. destruct l; [right | left]; reflexivity. Qed.

Lemma delimited_members (d : nat) (m : list (string * JSON)) (k : string) :
  delimited (emit_members d m k).
Proof. destruct m as [|[key y] m]; [right | left]; reflexivity. Qed.

Lemma parse_elements_emit (d : nat) (l : list JSON) :
  Forall reads_back l ->
  forall x fuel k, reads_back x -> items_size (x :: l) <= fuel ->
  parse_elements fuel (emit (S d) x (emit_items d l k)) = Some (x :: l, k).
Proof.
  induction 1 as [|y l Hy Hl IH]; intros x fuel k Hx Hfuel;
    (destruct fuel as [|fuel]; [cbn in Hfuel; lia|]);
    rewrite parse_elements_step; unfold items_size in Hfuel; cbn [fold_right] in Hfuel.
  - rewrite Hx; [| apply (delimited_items d []) | lia].
    cbn [emit_items fold_right]. rewrite skip_ws_newline. reflexivity.
  - fold (items_size l) in Hfuel.
    rewrite Hx; [| apply (delimited_items d (y :: l)) | lia].
    rewrite emit_items_cons. cbn [skip_ws].
    change (is_json_ws ",") with false. cbv iota.
    change (Ascii.eqb "," ",") with true. cbv iota.
    rewrite <- parse_elements_skip_ws, skip_ws_newline, parse_elements_skip_ws.
    rewrite IH; [reflexivity | assumption |].
    unfold items_size. cbn [fold_right]. fold (items_size l). lia.
Qed.

Lemma parse_value_space (fuel : nat) (s : string) :
  parse_value fuel (String " " s) = parse_value fuel s.
Proof.
  rewrite <- parse_value_skip_ws. cbn [skip_ws]. change (is_json_ws " ") with true.
  cbv iota. apply parse_value_skip_ws.
Qed.

Lemma obj_get_None (key : string) (m : list (string * JSON)) :
  key ∉ keys m -> obj_get key m = None.
Proof.
  induction m as [|[k x] m IH]; [reflexivity|]. cbn [keys map fst obj_get].
  intros [Hne Hnotin]%not_elem_of_cons.
  destruct (String.eqb_spec key k) as [->|_]; [congruence|]. apply IH. exact Hnotin.
Qed.

Lemma obj_cons_fresh (key : string) (x : JSON) (m : list (string * JSON)) :
  key ∉ keys m -> obj_cons key x m = (key, x) :: m.
Proof. intros H. unfold obj_cons. rewrite obj_get_None by assumption. reflexivity. Qed.

Lemma parse_members_emit (d : nat) (m : list (string * JSON)) :
  Forall (fun kv => reads_back (snd kv)) m ->
  forall key x fuel k, reads_back x -> NoDup (key :: keys m) ->
  members_size ((key, x) :: m) <= fuel ->
  parse_members fuel (quote key (String ":" (String " " (emit (S d) x (emit_members d m k)))))
  = Some ((key, x) :: m, k).
Proof.
  induction 1 as [|[key' y] m Hy Hm IH]; intros key x fuel k Hx Hnodup Hfuel;
    (destruct fuel as [|fuel]; [cbn in Hfuel; lia|]);
    rewrite parse_members_quote, parse_value_space;
    unfold members_size in Hfuel; cbn [fold_right] in Hfuel.
  - rewrite Hx; [| apply (delimited_members d []) | lia].
    cbn [emit_members fold_right]. rewrite skip_ws_newline. reflexivity.
  - fold (members_size m) in Hfuel.
    rewrite Hx; [| apply (delimited_members d ((key', y) :: m)) | lia].
    rewrite emit_members_cons. cbn [skip_ws].
    change (is_json_ws ",") with false. cbv iota.
    change (Ascii.eqb "," ",") with true. cbv iota.
    rewrite <- parse_members_skip_ws, skip_ws_newline, parse_members_skip_ws.
    inversion Hnodup as [|? ? Hnotin Hnodup']; subst.
    rewrite IH; [| exact Hy | exact Hnodup' |].
    + rewrite obj_cons_fresh by exact Hnotin. reflexivity.
    + unfold members_size. cbn [fold_right]. fold (members_size m). lia.
Qed.

(** Reading the text of a well-formed value gives the value back, and leaves
    what follows the text. *)
Lemma emit_reads_back (v : JSON) : wf_json v -> reads_back v.
Proof.
  induction v as [| b | n | s | l IH | m IH] using JSON_ind; intros Hwf d fuel k Hk Hfuel;
    (destruct fuel as [|fuel]; [cbn in Hfuel; lia|]).
  - reflexivity.
  - destruct b; reflexivity.
  - apply parse_value_number; assumption.
  - apply parse_value_string.
  - apply wf_json_arr in Hwf.
    assert (Hall : Forall reads_back l).
    { clear Hfuel. induction IH; inversion Hwf; subst; constructor; auto. }
    destruct l as [|x l]; [reflexivity|].
    rewrite emit_arr_cons, parse_value_array, skip_ws_newline, skip_ws_emit.
    destruct (emit_head (S d) x (emit_items d l k)) as (c & r & E & _ & Hc).
    rewrite E, Hc, <- E.
    rewrite <- parse_elements_skip_ws, skip_ws_newline, parse_elements_skip_ws.
    inversion Hall; subst.
    rewrite parse_elements_emit; [reflexivity | assumption | assumption |].
    cbn [jsize] in Hfuel. fold (items_size (x :: l)) in Hfuel. lia.
  - apply wf_json_obj in Hwf as [Hnodup Hwf].
    assert (Hall : Forall (fun kv => reads_back (snd kv)) m).
    { clear Hfuel Hnodup. induction IH; inversion Hwf; subst; constructor; auto. }
    destruct m as [|[key x] m]; [reflexivity|].
    rewrite emit_obj_cons, parse_value_object, skip_ws_newline.
    unfold quote at 1. cbn [skip_ws]. change (is_json_ws DQ) with false. cbv iota.
    change (Ascii.eqb DQ "}") with false. cbv iota.
    rewrite <- parse_members_skip_ws, skip_ws_newline, parse_members_skip_ws.
    inversion Hall; subst.
    rewrite parse_members_emit; [reflexivity | assumption | assumption | exact Hnodup |].
    cbn [jsize] in Hfuel. fold (members_size ((key, x) :: m)) in Hfuel. lia.
Qed.

(** *** Enough fuel *)

Lemma length_indent (d : nat) (k : string) : String.length k <= String.length (indent d k).
Proof. induction d as [|d IH]; cbn [indent String.length]; lia. Qed.

Lemma length_newline (d : nat) (k : string) : S (String.length k) <= String.length (newline d k).
Proof. unfold newline. cbn [String.length]. pose proof (length_indent d k). lia. Qed.

Lemma length_emit_char (c : ascii) (k : string) :
  String.length k <= String.length (emit_char c k).
Proof. unfold emit_char. repeat case_match; cbn [String.length]; lia. Qed.

Lemma length_emit_chars (s k : string) : String.length k <= String.length (emit_chars s k).
Proof.
  induction s as [|c s IH]; cbn [emit_chars]; [lia|].
  pose proof (length_emit_char c (emit_chars s k)). lia.
Qed.

Lemma length_quote (s k : string) : S (String.length k) <= String.length (quote s k).
Proof.
  unfold quote. cbn [String.length].
  pose proof (length_emit_chars s (String DQ k)) as H. cbn [String.length] in H. lia.
Qed.

Lemma length_emit_uint (u : uint) (k : string) :
  String.length (emit_uint u k) = nb_digits u + String.length k.
Proof. induction u; cbn [emit_uint String.length nb_digits]; lia. Qed.

Lemma length_emit_Z (n : Z) (k : string) : S (String.length k) <= String.length (emit_Z n k).
Proof.
  destruct (emit_Z_head n k) as (c & r & E & _).
  destruct n as [|p|p]; cbn [emit_Z] in *; cbn [String.length];
    rewrite ?length_emit_uint; try lia.
  pose proof (to_uint_literal p) as H.
  destruct (Pos.to_uint p); [discriminate|..]; cbn [nb_digits]; lia.
Qed.

Lemma length_emit_items (d : nat) (l : list JSON) (k : string) :
  Forall long_enough l ->
  items_size l + String.length k <= String.length (emit_items d l k).
Proof.
  induction 1 as [|y l Hy Hl IH].
  - cbn [emit_items fold_right items_size].
    pose proof (length_newline d (String "]" k)) as H. cbn [String.length] in H. lia.
  - rewrite emit_items_cons. unfold items_size. cbn [fold_right]. fold (items_size l).
    cbn [String.length].
    pose proof (length_newline (S d) (emit (S d) y (emit_items d l k))).
    pose proof (Hy (S d) (emit_items d l k)). lia.
Qed.

Lemma length_emit_members (d : nat) (m : list (string * JSON)) (k : string) :
  Forall (fun kv => long_enough (snd kv)) m ->
  members_size m + String.length k <= String.length (emit_members d m k).
Proof.
  induction 1 as [|[key y] m Hy Hm IH].
  - cbn [emit_members fold_right members_size].
    pose proof (length_newline d (String "}" k)) as H. cbn [String.length] in H. lia.
  - rewrite emit_members_cons. unfold members_size. cbn [fold_right]. fold (members_size m).
    cbn [String.length].
    pose proof (length_newline (S d)
      (quote key (String ":" (String " " (emit (S d) y (emit_members d m k)))))).
    pose proof (length_quote key (String ":" (String " " (emit (S d) y (emit_members d m k))))) as Hq.
    cbn [String.length] in Hq.
    pose proof (Hy (S d) (emit_members d m k)) as Hy'. cbn [snd] in Hy'. lia.
Qed.

Lemma emit_long_enough (v : JSON) : long_enough v.
Proof.
  induction v as [| b | n | s | l IH | m IH] using JSON_ind; intros d k.
  - cbn [emit jsize]. rewrite length_append. cbn [String.length]. lia.
  - destruct b; cbn [emit jsize]; rewrite length_append; cbn [String.length]; lia.
  - cbn [emit jsize]. pose proof (length_emit_Z n k). lia.
  - cbn [emit jsize]. pose proof (length_quote s k). lia.
  - destruct l as [|x l].
    + cbn [emit jsize fold_right]. rewrite length_append. cbn [String.length]. lia.
    + rewrite emit_arr_cons. cbn [jsize fold_right]. fold (items_size l).
      inversion IH as [|? ? Hx Hl]; subst. cbn [String.length].
      pose proof (length_newline (S d) (emit (S d) x (emit_items d l k))).
      pose proof (Hx (S d) (emit_items d l k)).
      pose proof (length_emit_items d l k Hl). lia.
  - destruct m as [|[key x] m].
    + cbn [emit jsize fold_right]. rewrite length_append. cbn [String.length]. lia.
    + rewrite emit_obj_cons. cbn [jsize fold_right]. fold (members_size m).
      inversion IH as [|? ? Hx Hm]; subst. cbn [String.length].
      pose proof (length_newline (S d)
        (quote key (String ":" (String " " (emit (S d) x (emit_members d m k)))))).
      pose proof (length_quote key (String ":" (String " " (emit (S d) x (emit_members d m k))))) as Hq.
      cbn [String.length] in Hq.
      pose proof (Hx (S d) (emit_members d m k)) as Hx'. cbn [snd] in Hx'.
      pose proof (length_emit_members d m k Hm). lia.
Qed.

(** [JSON.parse (JSON.stringify (v, null, 2))] is [v]. *)
Theorem JSON_parse_stringify (v : JSON) : wf_json v -> JSON_parse (stringify v) = Some v.
Proof.
  intros Hwf. unfold JSON_parse, stringify.
  rewrite (emit_reads_back v Hwf 0 _ EmptyString); [reflexivity | exact I |].
  pose proof (emit_long_enough v 0 EmptyString). lia.
Qed.

Lemma distinct_NoDup (l : list string) : distinct l = true -> NoDup l.
Proof.
  induction l as [|k l IH]; [constructor|]. cbn [distinct].
  intros [Hk Hl]%andb_prop. constructor; [|apply IH; exact Hl].
  intros Hin. apply list_elem_of_In in Hin.
  rewrite forallb_forall in Hk. specialize (Hk k Hin).
  rewrite String.eqb_refl in Hk. discriminate.
Qed.


Lemma check_required_ok (page : JSON) :
  required_fields_ok page -> check_required page REQUIRED_PAGE_FIELDS = Ok tt.
Proof.
  intros [Hid Htitle]. unfold REQUIRED_PAGE_FIELDS. cbn [check_required].
  destruct page; try discriminate. cbn [is_null]. rewrite Hid, Htitle. reflexivity.
Qed.




(** ** The store *)

Lemma strict_eq_sound (a b : JSON) : strict_eq a b = true -> a = b.
Proof.
  revert b. induction a as [| x | x | x | l IH | m IH] using JSON_ind;
    intros [| y | y | y | l' | m']; cbn [strict_eq]; try discriminate.
  - reflexivity.
  - intros H. apply Bool.eqb_prop in H. congruence.
  - intros H. apply Z.eqb_eq in H. congruence.
  - intros H. apply String.eqb_eq in H. congruence.
  - intros H. f_equal. revert l' H.
    induction IH as [|x l Hx Hl IHl]; intros [|y l']; try discriminate; [reflexivity|].
    intros [H1 H2]%andb_prop. f_equal; [apply Hx; exact H1 | apply IHl; exact H2].
  - intros H. f_equal. revert m' H.
    induction IH as [|[k x] m Hx Hm IHm]; intros [|[k' y] m']; try discriminate; [reflexivity|].
    intros [[H0 H1]%andb_prop H2]%andb_prop. apply String.eqb_eq in H0.
    f_equal; [f_equal; [exact H0 | apply Hx; exact H1] | apply IHm; exact H2].
Qed.

Section StoreProofs.
Context {host : Host}.

Lemma getSafeFilePath_name (pageId : JSON) (dest : string) :
  getSafeFilePath pageId = Ok dest ->
  exists n, rel_name dest = Some n /\ forall suf, rel_name (dest +:+ suf) = Some (n +:+ suf).
Proof.
  intros H. destruct (getSafeFilePath_Ok_valid _ _ H) as (s & -> & Hpat & Hlen).
  destruct (getSafeFilePath_valid s Hpat Hlen) as [E Hres].
  rewrite E in H. injection H as <-.
  exists (trim s +:+ ".json"). unfold rel_name, path_sep. rewrite Hres.
  assert (Hassoc : forall x, PAGES_DIR +:+ String "/" x = (PAGES_DIR +:+ "/") +:+ x).
  { intros x. rewrite append_assoc. reflexivity. }
  split.
  - rewrite (Hassoc (trim s +:+ ".json")). apply drop_prefix_append.
  - intros suf. rewrite (Hassoc (trim s +:+ ".json")), append_assoc. apply drop_prefix_append.
Qed.

Lemma temp_name_fresh (n hex : string) : n +:+ "." +:+ hex +:+ ".tmp" <> n.
Proof.
  intros E. apply (f_equal String.length) in E. rewrite !length_append in E.
  cbn [String.length] in E. lia.
Qed.

Lemma write_sequence_spec (dest tmp data : string) (e : Env) (w : World)
      (m : gmap string File) (n tn : string) :
  dir w = Some m -> rel_name dest = Some n -> rel_name tmp = Some tn -> tn <> n ->
  exists m',
    write_sequence dest tmp data e w
    = (match fault e with NoFault => Ok tt | _ => Err WRITE_ERROR end, set_dir w m') /\
    m' !! n = match fault e with
              | NoFault => Some {| content := data; mode := FILE_PERMISSIONS |}
              | ChmodFails =>
                  Some {| content := data;
                          mode := match m !! tn with Some f => mode f | None => FILE_PERMISSIONS end |}
              | _ => m !! n
              end /\
    (forall k, k <> n -> k <> tn -> m' !! k = m !! k) /\
    (unlink_fails e = false \/ fault e = NoFault \/ fault e = ChmodFails -> m' !! tn = None).
Proof.
  intros Hdir Hn Htn Hne.
  unfold write_sequence, try_catch, bind, fs_writeFile, fs_rename, fs_chmod, fs_unlink, throw, ret.
  destruct w as [d c ev]. cbn [dir] in Hdir. subst d. cbn [dir set_dir clock env].
  rewrite Hn, Htn.
  destruct (fault e) as [| [part|] | |]; destruct (unlink_fails e);
    cbn [dir set_dir clock env]; rewrite ?Hn, ?Htn;
    repeat (simplify_map_eq; cbn [dir set_dir clock env content mode]).
  all: try (eexists; split; [reflexivity|]; repeat split; intros; simplify_map_eq; try done;
            intuition congruence).
  destruct (m !! tn) eqn:Et; cbn [set_dir dir clock env];
    (eexists; split; [reflexivity|]; repeat split; intros; simplify_map_eq; done).
Qed.

Lemma strict_eq_refl (a : JSON) : strict_eq a a = true.
Proof.
  induction a as [| x | x | x | l IH | m IH] using JSON_ind; cbn [strict_eq].
  - reflexivity.
  - destruct x; reflexivity.
  - apply Z.eqb_refl.
  - apply String.eqb_refl.
  - induction IH as [|x l Hx Hl IHl]; [reflexivity|]. rewrite Hx. exact IHl.
  - induction IH as [|[k x] m Hx Hm IHm]; [reflexivity|].
    rewrite String.eqb_refl. cbn [snd] in Hx. rewrite Hx. exact IHm.
Qed.

Lemma required_fields_object (page : JSON) :
  required_fields_ok page -> exists m, page = JObj m.
Proof. intros [H _]. destruct page; try discriminate. eauto. Qed.

Lemma read_existing_state (pageId : JSON) (w : World) : snd (read_existing pageId w) = w.
Proof. unfold read_existing. destruct (readPage pageId w) as [|[]]; reflexivity. Qed.

(** A write that gets to its I/O is its write sequence, run in the state
    where the directory exists, with the next environment. *)
Lemma writePage_eval (pageId pageData : JSON) (w : World) (dest : string) (existing : option JSON) :
  write_reaches_io pageId pageData w dest existing ->
  let e := env w (clock w) in
  let final := build_final pageData existing (toISOString (time_now e)) in
  writePage pageId pageData w =
  match write_sequence dest (temp_path dest (randomHex e)) (encode final) e
          (tick (snd (ensurePagesDir w))) with
  | (Ok _, w') => (Ok final, w')
  | (Err er, w') => (Err er, w')
  end.
Proof.
  intros (Hreq & Hid & Hdest & Hex) e final.
  destruct (required_fields_object _ Hreq) as [m ->].
  unfold writePage. cbn [truthy is_object negb orb].
  rewrite check_required_ok by assumption.
  rewrite Hid. cbn [strict_eq_opt]. rewrite strict_eq_refl. cbn [negb].
  unfold bind, lift. rewrite Hdest.
  pose proof (read_existing_state pageId w) as Hst.
  destruct (read_existing pageId w) as [r w0]. cbn [fst snd] in Hex, Hst. subst r w0.
  unfold ensurePagesDir, fs_mkdir_PAGES_DIR, next_env, ret.
  destruct (dir w) eqn:Hd; cbn [snd]; reflexivity.
Qed.

Lemma dir_after_mkdir (w : World) :
  exists m, dir (tick (snd (ensurePagesDir w))) = Some m /\
            (forall p, file_at (tick (snd (ensurePagesDir w))) p = file_at w p) /\
            m = match dir w with Some m0 => m0 | None => ∅ end.
Proof.
  unfold ensurePagesDir, fs_mkdir_PAGES_DIR, file_at.
  destruct w as [[m|] c ev]; cbn [dir tick snd set_dir clock env].
  - exists m. repeat split.
  - exists ∅. repeat split. intros p. destruct (rel_name p); [apply lookup_empty | reflexivity].
Qed.

(** C8: a write whose document has its required fields and an [id] other
    than the id of the write fails with [PAGE_ID_MISMATCH], and the state of
    the store is the one before: no file is created or modified. *)
Theorem write_mismatch (pageId pageData : JSON) (w : World) :
  required_fields_ok pageData -> prop pageData "id" <> Some pageId ->
  writePage pageId pageData w = (Err PAGE_ID_MISMATCH, w).
Proof.
  intros Hreq Hne. destruct (required_fields_object _ Hreq) as [m ->].
  unfold writePage. cbn [truthy is_object negb orb].
  rewrite check_required_ok by assumption.
  destruct (prop (JObj m) "id") as [v|] eqn:E; cbn [strict_eq_opt]; [|reflexivity].
  destruct (strict_eq v pageId) eqn:Heq; [|reflexivity].
  apply strict_eq_sound in Heq. congruence.
Qed.

Lemma file_at_set_dir (w : World) (m : gmap string File) (p n : string) :
  rel_name p = Some n -> file_at (set_dir w m) p = m !! n.
Proof. intros H. unfold file_at. cbn [dir set_dir]. rewrite H. reflexivity. Qed.

(** C1 (amended): when a write gets to its I/O and a step of the write
    sequence fails, [WRITE_ERROR] is thrown; no temp file is left unless its
    removal fails too; if the failing step is the writing of the temp file or
    the rename, the destination is as it was (absent, or its prior file); if
    it is the [chmod], which comes after the rename, the destination holds the
    complete new document.  So the destination never holds a partial file. *)
Theorem write_failure_atomic (pageId pageData : JSON) (w : World)
        (dest : string) (existing : option JSON) :
  write_reaches_io pageId pageData w dest existing ->
  fault (env w (clock w)) <> NoFault ->
  let e := env w (clock w) in
  let final := build_final pageData existing (toISOString (time_now e)) in
  exists w',
    writePage pageId pageData w = (Err WRITE_ERROR, w') /\
    (unlink_fails e = false -> file_at w' (temp_path dest (randomHex e)) = None) /\
    match fault e with
    | ChmodFails => exists f, file_at w' dest = Some f /\ content f = encode final
    | _ => file_at w' dest = file_at w dest
    end.
Proof.
  intros Hreach Hfault e final.
  rewrite (writePage_eval _ _ _ _ _ Hreach). fold e. fold final.
  destruct Hreach as (_ & _ & Hdest & _).
  destruct (getSafeFilePath_name _ _ Hdest) as (n & Hn & Hsuf).
  destruct (dir_after_mkdir w) as (m & Hdir & Hfiles & _).
  set (w1 := tick (snd (ensurePagesDir w))) in *.
  assert (Htn : rel_name (temp_path dest (randomHex e)) = Some (n +:+ "." +:+ randomHex e +:+ ".tmp")).
  { unfold temp_path. apply Hsuf. }
  destruct (write_sequence_spec dest _ (encode final) e w1 m n _ Hdir Hn Htn (temp_name_fresh _ _))
    as (m' & Hrun & Hlook & _ & Htemp).
  rewrite Hrun. fold e in Hfault.
  destruct (fault e) eqn:Ef; [congruence | ..];
    (eexists; split; [reflexivity|]; split;
     [intros Hu; rewrite (file_at_set_dir _ _ _ _ Htn); apply Htemp; auto |]).
  - rewrite (file_at_set_dir _ _ _ _ Hn), Hlook, <- Hfiles.
    unfold file_at. rewrite Hdir, Hn. reflexivity.
  - rewrite (file_at_set_dir _ _ _ _ Hn), Hlook, <- Hfiles.
    unfold file_at. rewrite Hdir, Hn. reflexivity.
  - eexists. rewrite (file_at_set_dir _ _ _ _ Hn), Hlook. split; reflexivity.
Qed.

(** *** What [JSON.parse] returns is well formed *)

Lemma obj_get_elem (k : string) (m : list (string * JSON)) (v : JSON) :
  obj_get k m = Some v -> (k, v) ∈ m.
Proof.
  induction m as [|[k' x] m IH]; [discriminate|]. cbn [obj_get].
  destruct (String.eqb_spec k k') as [->|Hne].
  - intros [= ->]. left.
  - intros H. right. apply IH. exact H.
Qed.

Lemma obj_get_None_keys (k : string) (m : list (string * JSON)) :
  obj_get k m = None -> k ∉ keys m.
Proof.
  induction m as [|[k' x] m IH]; [intros _; apply not_elem_of_nil|]. cbn [obj_get keys map fst].
  destruct (String.eqb_spec k k') as [->|Hne]; [discriminate|].
  intros H. apply not_elem_of_cons. split; [exact Hne | apply IH; exact H].
Qed.

Lemma obj_remove_elem (k : string) (m : list (string * JSON)) (kv : string * JSON) :
  kv ∈ obj_remove k m -> kv ∈ m /\ fst kv <> k.
Proof.
  induction m as [|[k' x] m IH]; cbn [obj_remove]; [intros H; inversion H|].
  destruct (String.eqb_spec k k') as [->|Hne].
  - intros H. destruct (IH H). split; [right; assumption | assumption].
  - intros [-> | H]%elem_of_cons.
    + split; [left | cbn [fst]; congruence].
    + destruct (IH H). split; [right; assumption | assumption].
Qed.

Lemma obj_remove_keys (k k0 : string) (m : list (string * JSON)) :
  k0 ∈ keys (obj_remove k m) -> k0 ∈ keys m /\ k0 <> k.
Proof.
  unfold keys. intros ([k1 x] & -> & Hin)%list_elem_of_fmap.
  destruct (obj_remove_elem _ _ _ Hin) as [H1 H2]. split; [|exact H2].
  apply list_elem_of_fmap. exists (k1, x). split; [reflexivity | exact H1].
Qed.

Lemma obj_remove_NoDup (k : string) (m : list (string * JSON)) :
  NoDup (keys m) -> NoDup (keys (obj_remove k m)).
Proof.
  induction m as [|[k' x] m IH]; [intros _; constructor|]. cbn [keys map fst obj_remove].
  intros [Hnotin Hnd]%NoDup_cons.
  destruct (String.eqb_spec k k') as [->|Hne]; [apply IH; exact Hnd|].
  cbn [keys map fst]. apply NoDup_cons. split; [|apply IH; exact Hnd].
  intros Hin. apply obj_remove_keys in Hin as [Hin _]. exact (Hnotin Hin).
Qed.

Lemma obj_cons_wf (k : string) (v : JSON) (m : list (string * JSON)) :
  wf_json v -> wf_members m -> wf_members (obj_cons k v m).
Proof.
  intros Hv [Hnd Hall]. unfold obj_cons, wf_members.
  destruct (obj_get k m) as [v'|] eqn:E.
  - cbn [keys map fst]. split.
    + apply NoDup_cons. split; [|apply obj_remove_NoDup; exact Hnd].
      intros Hin. apply obj_remove_keys in Hin as [_ Hne]. congruence.
    + constructor.
      * rewrite Forall_forall in Hall. exact (Hall _ (obj_get_elem _ _ _ E)).
      * rewrite Forall_forall in Hall |- *. intros kv Hin.
        apply Hall. apply (obj_remove_elem _ _ _ Hin).
  - cbn [keys map fst]. split.
    + apply NoDup_cons. split; [apply obj_get_None_keys; exact E | exact Hnd].
    + constructor; assumption.
Qed.

Lemma parse_unsigned_safe (s : string) (n : Z) (r : string) :
  parse_unsigned s = Some (n, r) -> safe_integer n = true.
Proof.
  unfold parse_unsigned. destruct (read_digits s) as [u r'].
  destruct (int_literal_ok u && negb (starts_fraction r')); cbn [andb]; [|discriminate].
  destruct (safe_integer (Z.of_N (N.of_uint u))) eqn:E; [|discriminate].
  intros [= <- <-]. exact E.
Qed.

Lemma parse_number_safe (s : string) (n : Z) (r : string) :
  parse_number s = Some (n, r) -> safe_integer n = true.
Proof.
  unfold parse_number. destruct s as [|c s]; [discriminate|].
  destruct (Ascii.eqb c "-").
  - destruct (parse_unsigned s) as [[n' r']|] eqn:E; [|discriminate].
    intros [= <- <-]. apply parse_unsigned_safe in E.
    rewrite safe_integer_opp. exact E.
  - apply parse_unsigned_safe.
Qed.

Lemma parse_wf (fuel : nat) :
  (forall s v r, parse_value fuel s = Some (v, r) -> wf_json v) /\
  (forall s l r, parse_elements fuel s = Some (l, r) -> Forall wf_json l) /\
  (forall s m r, parse_members fuel s = Some (m, r) -> wf_members m).
Proof.
  induction fuel as [|fuel (IHv & IHe & IHm)]; [repeat split; discriminate|].
  split; [|split].
  - intros s v r. cbn [parse_value]. unfold literal.
    repeat case_match; intros; simplify_eq; try exact I;
      first [ eapply parse_number_safe; eassumption
            | apply wf_json_arr; eapply IHe; eassumption
            | apply wf_json_obj; first [ apply (IHm _ _ _ ltac:(eassumption))
                                       | split; constructor ] ].
  - intros s l r. cbn [parse_elements].
    repeat case_match; intros; simplify_eq.
    + constructor; [eapply IHv; eassumption | eapply IHe; eassumption].
    + constructor; [eapply IHv; eassumption | constructor].
  - intros s m r. cbn [parse_members].
    repeat case_match; intros; simplify_eq.
    + apply obj_cons_wf; [eapply IHv; eassumption | eapply IHm; eassumption].
    + split; [apply NoDup_singleton | constructor; [eapply IHv; eassumption | constructor]].
Qed.

Lemma JSON_parse_wf (text : string) (v : JSON) : JSON_parse text = Some v -> wf_json v.
Proof.
  unfold JSON_parse. repeat case_match; intros; simplify_eq.
  eapply parse_wf; eassumption.
Qed.

(** *** Objects *)















(** *** The page that a write persists *)










Lemma check_required_inv (page : JSON) :
  check_required page REQUIRED_PAGE_FIELDS = Ok tt -> required_fields_ok page.
Proof.
  unfold REQUIRED_PAGE_FIELDS, required_fields_ok. cbn [check_required].
  destruct (is_null page); [discriminate|].
  destruct (truthy_opt (prop page "id")); [|discriminate].
  destruct (truthy_opt (prop page "title")); [|discriminate]. auto.
Qed.


(** What [readPage] returns is well formed. *)
Lemma readPage_wf (pageId : JSON) (w : World) (page : JSON) :
  readPage pageId w = Ok page -> wf_json page.
Proof.
  unfold readPage, fs_readFile, decode.
  destruct (getSafeFilePath pageId); [|discriminate].
  destruct (file_at w a); cbn [fst]; [|discriminate].
  destruct (JSON_parse (content f)) as [v|] eqn:E; [|discriminate].
  destruct (check_required v REQUIRED_PAGE_FIELDS) as [|[]]; try discriminate.
  intros [= <-]. exact (JSON_parse_wf _ _ E).
Qed.


Lemma writePage_reaches (pageId pageData : JSON) (w w' : World) (r : Result JSON) :
  writePage pageId pageData w = (r, w') ->
  (exists dest existing, write_reaches_io pageId pageData w dest existing) \/
  (exists er, r = Err er /\ er <> WRITE_ERROR /\ w' = w).
Proof.
  unfold writePage.
  destruct (negb (truthy pageData) || negb (is_object pageData)).
  { intros [= <- <-]. right. eexists. repeat split. discriminate. }
  destruct (check_required pageData REQUIRED_PAGE_FIELDS) as [[]|er] eqn:Ereq.
  2:{ intros [= <- <-]. right. exists er. repeat split. intros ->.
      unfold REQUIRED_PAGE_FIELDS in Ereq. cbn [check_required] in Ereq.
      repeat case_match; discriminate. }
  apply check_required_inv in Ereq.
  destruct (prop pageData "id") as [v|] eqn:Eid; cbn [strict_eq_opt].
  2:{ intros [= <- <-]. right. eexists. repeat split. discriminate. }
  destruct (strict_eq v pageId) eqn:Eeq; cbn [negb].
  2:{ intros [= <- <-]. right. eexists. repeat split. discriminate. }
  apply strict_eq_sound in Eeq. subst v.
  unfold bind at 1. unfold lift.
  destruct (getSafeFilePath pageId) as [dest|er] eqn:Edest.
  2:{ intros [= <- <-]. right. exists er. repeat split. intros ->.
      destruct (getSafeFilePath_error_codes _ _ Edest); discriminate. }
  unfold bind at 1.
  pose proof (read_existing_state pageId w) as Hst.
  destruct (read_existing pageId w) as [[existing|er] w0] eqn:Eex; cbn [snd] in Hst; subst w0.
  - intros _. left. exists dest, existing. unfold write_reaches_io. rewrite Eex.
    split; [exact Ereq|]. repeat split; assumption.
  - intros [= <- <-]. right. exists er. repeat split. intros ->.
    unfold read_existing, readPage in Eex. rewrite Edest in Eex.
    repeat case_match; simplify_eq.
Qed.



End StoreProofs.

Lemma write_mismatch_witness :
  @writePage example_host (JStr "p2") example_doc (empty_world [])
  = (Err PAGE_ID_MISMATCH, empty_world []).
Proof.
  apply write_mismatch.
  - split; reflexivity.
  - discriminate.
Defined.

Lemma first_write_example :
  @writePage example_host (JStr "p1") example_doc (empty_world [(1700000000000%Z, NoFault)])
  = (Ok example_stored, one_page_world [(1700000000000%Z, NoFault)]).
Proof. vm_compute. reflexivity. Qed.

Lemma write_failure_atomic_witness :
  let w := one_page_world [(1700000000000, NoFault); (1700000000500, RenameFails)]%Z in
  exists w',
    @writePage example_host (JStr "p1") example_doc2 w = (Err WRITE_ERROR, w') /\
    (unlink_fails (env w (clock w)) = false ->
     @file_at example_host w' (temp_path example_dest (randomHex (env w (clock w)))) = None) /\
    @file_at example_host w' example_dest = @file_at example_host w example_dest.
Proof.
  intros w.
  apply (@write_failure_atomic example_host (JStr "p1") example_doc2 w example_dest
           (Some example_stored)).
  - repeat split; vm_compute; reflexivity.
  - vm_compute. discriminate.
Defined.

(** When [chmod] fails the rename has been done: the write throws, and the
    destination holds the new document. *)
Lemma chmod_failure_replaces_destination :
  let w := one_page_world [(1700000000000, NoFault); (1700000000500, ChmodFails)]%Z in
  let '(r, w') := @writePage example_host (JStr "p1") example_doc2 w in
  r = Err WRITE_ERROR /\
  option_map content (@file_at example_host w example_dest) = Some (encode example_stored) /\
  option_map content (@file_at example_host w' example_dest) <>
  option_map content (@file_at example_host w example_dest).
Proof. vm_compute. repeat split. discriminate. Qed.



(** ** Listing and search *)

(** *** [Array.prototype.sort] *)

Section SortProofs.
Context {A : Type} (comparefn : A -> A -> option Z).



(** The comparator never asks for both orders. *)
Hypothesis goes_after_asym :
  forall a b, goes_after comparefn a b = true -> goes_after comparefn b a = false.




End SortProofs.

Section ListingProofs.
Context {host : Host}.






Lemma readPage_same_files (pageId : JSON) (w w1 : World) :
  (forall p, file_at w1 p = file_at w p) -> readPage pageId w1 = readPage pageId w.
Proof.
  intros H. unfold readPage, fs_readFile. destruct (getSafeFilePath pageId); [|reflexivity].
  rewrite H. destruct (file_at w a); reflexivity.
Qed.

Lemma file_at_mkdir (w : World) (p : string) :
  file_at (snd (ensurePagesDir w)) p = file_at w p.
Proof.
  unfold ensurePagesDir, fs_mkdir_PAGES_DIR, file_at.
  destruct (dir w) eqn:E; cbn [snd]; [rewrite E; reflexivity|].
  cbn [dir set_dir]. destruct (rel_name p); [apply lookup_empty | reflexivity].
Qed.



Lemma strip_suffix_append (suf s : string) : strip_suffix suf (s +:+ suf) = Some s.
Proof.
  induction s as [|c s IH].
  - rewrite append_nil_l. destruct suf; cbn [strip_suffix]; rewrite String.eqb_refl; reflexivity.
  - rewrite append_cons, strip_suffix_cons, IH.
    replace (String c (s +:+ suf) =? suf)%string with false; [reflexivity|].
    symmetry. apply String.eqb_neq. intros E. apply (f_equal String.length) in E.
    cbn [String.length] in E. rewrite length_append in E. lia.
Qed.

Lemma is_id_char_not_space (c : ascii) : is_id_char c = true -> is_js_space c = false.
Proof. destruct c as [[] [] [] [] [] [] [] []]; intros H; try discriminate H; reflexivity. Qed.

Lemma trimEnd_id (s : string) : string_forallb is_id_char s = true -> trimEnd s = s.
Proof.
  induction s as [|c s IH]; [reflexivity|]. cbn [string_forallb trimEnd].
  intros [Hc Hs]%andb_prop. rewrite (IH Hs), (is_id_char_not_space c Hc).
  destruct s; reflexivity.
Qed.

(** Trimming leaves a string of identifier characters as it is. *)
Lemma trim_id (s : string) : string_forallb is_id_char s = true -> trim s = s.
Proof.
  intros H. unfold trim. destruct s as [|c s]; [reflexivity|].
  assert (Hc : is_js_space c = false).
  { cbn [string_forallb] in H. apply andb_prop in H as [Hc _].
    apply is_id_char_not_space. exact Hc. }
  cbn [trimStart]. rewrite Hc. apply trimEnd_id. exact H.
Qed.





End ListingProofs.


(** *** Search *)

Lemma is_js_space_lower (c : ascii) : is_js_space (lower_char c) = is_js_space c.
Proof. destruct c as [[] [] [] [] [] [] [] []]; reflexivity. Qed.

Lemma trimStart_lower (s : string) : trimStart (toLowerCase s) = toLowerCase (trimStart s).
Proof.
  induction s as [|c s IH]; [reflexivity|]. cbn [toLowerCase trimStart].
  rewrite is_js_space_lower. destruct (is_js_space c); [exact IH | reflexivity].
Qed.

Lemma trimEnd_lower (s : string) : trimEnd (toLowerCase s) = toLowerCase (trimEnd s).
Proof.
  induction s as [|c s IH]; [reflexivity|]. cbn [toLowerCase trimEnd].
  rewrite IH, is_js_space_lower.
  destruct (trimEnd s); cbn [toLowerCase]; [destruct (is_js_space c)|]; reflexivity.
Qed.

Lemma trim_lower (s : string) : trim (toLowerCase s) = toLowerCase (trim s).
Proof. unfold trim. rewrite trimStart_lower, trimEnd_lower. reflexivity. Qed.

Section SearchProofs.
Context {host : Host}.

(** An empty, absent or white-space query, or a query that is no string:
    the search is the listing. *)
Lemma searchPages_no_query (query : option JSON) :
  (forall s, query = Some (JStr s) -> trim s = "") -> searchPages query = listPages.
Proof.
  intros H. destruct query as [[| b | n | s | l | m]|]; try reflexivity.
  unfold searchPages. destruct (negb (truthy (JStr s))); [reflexivity|].
  rewrite trim_lower, (H s eq_refl). reflexivity.
Qed.

Lemma field_match_text (field : option JSON) (nq : string) :
  text_or_missing field -> field_match field nq = Ok (field_contains field nq).
Proof. destruct field as [[]|]; try contradiction; reflexivity. Qed.

Lemma filter_pages_searchable (nq : string) (pages : list Summary) :
  Forall searchable pages ->
  filter_pages nq pages = Ok (List.filter (summary_matches nq) pages).
Proof.
  induction 1 as [|page rest (Hid & Htitle & Hslug) Hrest IH]; [reflexivity|].
  cbn [filter_pages List.filter]. unfold page_match.
  rewrite (field_match_text _ _ Hid), (field_match_text _ _ Htitle), (field_match_text _ _ Hslug).
  rewrite IH. reflexivity.
Qed.

(** A query with text: the search is the listing, filtered, as long as the
    fields of the listed pages are text or missing. *)
Lemma searchPages_query (q : string) (w w' : World) (pages : list Summary) :
  trim q <> "" -> listPages w = (Ok pages, w') -> Forall searchable pages ->
  searchPages (Some (JStr q)) w
  = (Ok (List.filter (summary_matches (trim (toLowerCase q))) pages), w').
Proof.
  intros Hq Hlist Hall. unfold searchPages.
  assert (Hne : q <> "") by (intros ->; apply Hq; reflexivity).
  cbn [truthy]. apply String.eqb_neq in Hne. rewrite Hne. cbn [negb].
  assert (Hn : (String.length (trim (toLowerCase q)) =? 0)%nat = false).
  { apply Nat.eqb_neq. rewrite trim_lower. intros E.
    destruct (trim q); [congruence | discriminate E]. }
  rewrite Hn. unfold bind, lift. rewrite Hlist, filter_pages_searchable by assumption.
  reflexivity.
Qed.

End SearchProofs.

(** C7, at a store into which a page with a number for its title was
    imported: the import succeeds, the listing has the page, and every search
    with text throws a [TypeError], where the claim has the search return the
    matching summaries. *)
Theorem search_throws_on_number_title :
  let '(imported, w) :=
    @importPage example_host numbered_page false (empty_world [(1700000000000%Z, NoFault)]) in
  (exists page, imported = Ok page /\ prop page "title" = Some (JNum 5)) /\
  (exists summary, fst (@listPages example_host w) = Ok [summary] /\
                   s_title summary = Some (JNum 5)) /\
  fst (@searchPages example_host (Some (JStr "hello")) w) = Err TypeError.
Proof. vm_compute. repeat split; eexists; split; reflexivity. Qed.

(** ** Restore *)

Section RestoreProofs.
Context {host : Host}.

(** One round of the loop, for an entry that is not [null]: the entry is
    restored, skipped or recorded as an error, and the loop goes on. *)
Lemma restore_loop_step (page : JSON) (rest : list JSON) (overwrite : bool)
      (results : RestoreResults) (w : World) :
  page <> JNull ->
  restore_loop (page :: rest) overwrite results w =
  match importPage page overwrite w with
  | (Ok _, w') =>
      restore_loop rest overwrite
        {| total := total results; restored := S (restored results);
           skipped := skipped results; errors := errors results |} w'
  | (Err PAGE_EXISTS, w') =>
      restore_loop rest overwrite
        {| total := total results; restored := restored results;
           skipped := S (skipped results); errors := errors results |} w'
  | (Err error, w') =>
      restore_loop rest overwrite
        {| total := total results; restored := restored results;
           skipped := skipped results;
           errors := errors results ++ [{| e_pageId := prop page "id"; e_error := error |}] |} w'
  end.
Proof.
  intros Hpage. cbn [restore_loop]. unfold bind, try_catch, ret, throw.
  assert (Hnull : is_null page = false) by (destruct page; congruence || reflexivity).
  destruct (importPage page overwrite w) as [[p|er] w']; [reflexivity|].
  destruct er; rewrite ?Hnull; reflexivity.
Qed.

(** A [null] entry: the handler of the loop throws, and the loop ends. *)
Lemma restore_loop_null (rest : list JSON) (overwrite : bool)
      (results : RestoreResults) (w : World) :
  restore_loop (JNull :: rest) overwrite results w = (Err TypeError, w).
Proof. reflexivity. Qed.

(** When no entry is [null], every entry is accounted for. *)
Lemma restore_loop_accounts (pages : list JSON) (overwrite : bool) :
  Forall (fun page => page <> JNull) pages ->
  forall results w, exists results' w',
    restore_loop pages overwrite results w = (Ok results', w') /\
    total results' = total results /\
    restored results' + skipped results' + length (errors results')
    = restored results + skipped results + length (errors results) + length pages.
Proof.
  induction 1 as [|page rest Hpage Hrest IH]; intros results w.
  - exists results, w. repeat split. cbn [length]. lia.
  - rewrite restore_loop_step by assumption.
    destruct (importPage page overwrite w) as [[p|er] w1].
    + edestruct IH as (r & w' & -> & Ht & Hsum). exists r, w'.
      repeat split; [exact Ht|]. rewrite Hsum. cbn [restored skipped errors length]. lia.
    + destruct er;
        (edestruct IH as (r & w' & -> & Ht & Hsum); exists r, w';
         repeat split; [exact Ht|]; rewrite Hsum;
         cbn [restored skipped errors length]; rewrite ?length_app; cbn [length]; lia).
Qed.

(** Whenever the loop returns, every entry is accounted for. *)
Lemma restore_loop_returns (pages : list JSON) (overwrite : bool) :
  forall results w results' w',
    restore_loop pages overwrite results w = (Ok results', w') ->
    total results' = total results /\
    restored results' + skipped results' + length (errors results')
    = restored results + skipped results + length (errors results) + length pages.
Proof.
  induction pages as [|page rest IH]; intros results w results' w' H.
  - injection H as <- <-. cbn [length]. lia.
  - destruct (is_null page) eqn:Hnull.
    { destruct page; discriminate. }
    rewrite restore_loop_step in H by (intros ->; discriminate).
    destruct (importPage page overwrite w) as [[p|er] w1].
    + apply IH in H as [Ht Hsum]. split; [exact Ht|]. rewrite Hsum.
      cbn [restored skipped errors length]. lia.
    + destruct er; apply IH in H as [Ht Hsum]; (split; [exact Ht|]); rewrite Hsum;
        cbn [restored skipped errors length]; rewrite ?length_app; cbn [length]; lia.
Qed.

(** The restore of a bundle whose version and pages are there and whose
    entries are not [null] returns, with every entry accounted for. *)
Lemma restoreFromBackup_accounts (backupJson : string) (overwrite : bool) (w : World)
      (backup : JSON) (pages : list JSON) :
  JSON_parse backupJson = Some backup ->
  truthy_opt (prop backup "version") = true ->
  prop backup "pages" = Some (JArr pages) ->
  Forall (fun page => page <> JNull) pages ->
  exists results w',
    restoreFromBackup backupJson overwrite w = (Ok results, w') /\
    total results = length pages /\ accounted results.
Proof.
  intros Hparse Hversion Hpages Hall. unfold restoreFromBackup. rewrite Hparse.
  assert (Hnull : is_null backup = false) by (destruct backup; try discriminate; reflexivity).
  rewrite Hnull, Hpages, Hversion. cbn [negb].
  edestruct (restore_loop_accounts pages overwrite Hall) as (r & w' & -> & Ht & Hsum).
  exists r, w'. split; [reflexivity|]. cbn [total restored skipped errors length] in Ht, Hsum.
  split; [exact Ht|]. unfold accounted. lia.
Qed.

End RestoreProofs.

(** The example of the specification: of three documents, one without its
    title; two are restored and the third is an error. *)
Lemma restore_three_documents :
  let script := [(1700000000000, NoFault); (1700000000500, NoFault)]%Z in
  exists w',
    @restoreFromBackup example_host
      (bundle_text [example_doc; untitled_page; numbered_page]) false (empty_world script)
    = (Ok {| total := 3; restored := 2; skipped := 0;
             errors := [{| e_pageId := Some (JStr "p2"); e_error := INVALID_PAGE_DATA |}] |}, w') /\
    @pageExists example_host (JStr "p1") w' = true /\
    @pageExists example_host (JStr "p3") w' = true.
Proof. intros script. eexists. vm_compute. repeat split. Qed.

(** C6, at a bundle whose first entry is [null]: the import of the entry
    fails with [INVALID_IMPORT_DATA], the handler of the loop reads [page.id]
    of [null], and the restore throws a [TypeError]; the document after the
    entry is not restored, where the claim has the failure recorded in
    [errors] and the restore go on. *)
Theorem restore_aborts_on_null_entry :
  let w := empty_world [(1700000000000%Z, NoFault)] in
  fst (@importPage example_host JNull false w) = Err INVALID_IMPORT_DATA /\
  @restoreFromBackup example_host (bundle_text [JNull; example_doc]) false w
  = (Err TypeError, w) /\
  @pageExists example_host (JStr "p1") w = false.
Proof. vm_compute. repeat split. Qed.


(* ===================================================================== *)
(** * Part III: further properties of the store                          *)
(* ===================================================================== *)

(** ** Identifiers and files *)

Section FurtherPaths.
Context {host : Host}.

(** An identifier is refused as invalid, or it is a string whose trimmed
    form is well formed and names a file of the storage directory. *)
Lemma getSafeFilePath_cases (pageId : JSON) :
  (exists s, pageId = JStr s /\ valid_identifier (trim s) /\
             getSafeFilePath pageId = Ok (PAGES_DIR +:+ String "/" (page_file s))) \/
  getSafeFilePath pageId = Err INVALID_PAGE_ID.
Proof.
  destruct pageId as [| b | n | s | l | m]; try (right; reflexivity).
  destruct (PAGE_ID_PATTERN_test (trim s)) eqn:Hp.
  - destruct (Nat.leb (String.length (trim s)) MAX_PAGE_ID_LENGTH) eqn:Hl.
    + apply Nat.leb_le in Hl. left. exists s. split; [reflexivity|].
      split; [split; assumption|]. apply getSafeFilePath_valid; assumption.
    + apply Nat.leb_gt in Hl. right. rewrite getSafeFilePath_string.
      destruct (negb (negb (s =? "")%string)); [reflexivity|].
      apply Nat.ltb_lt in Hl. rewrite Hl, orb_true_r. reflexivity.
  - right. rewrite getSafeFilePath_string, Hp.
    destruct (negb (negb (s =? "")%string)); [reflexivity|].
    destruct (_ || _); reflexivity.
Qed.

Lemma append_inj_prefix (p x y : string) : p +:+ x = p +:+ y -> x = y.
Proof.
  induction p as [|c p IH]; [exact (fun H => H)|].
  rewrite !append_cons. intros [= H]. exact (IH H).
Qed.

Lemma append_inj_suffix (suf x y : string) : x +:+ suf = y +:+ suf -> x = y.
Proof.
  intros H. apply (f_equal (strip_suffix suf)) in H.
  rewrite !strip_suffix_append in H. congruence.
Qed.

Lemma page_file_inj (a b : string) : page_file a = page_file b -> trim a = trim b.
Proof. apply append_inj_suffix. Qed.

Lemma rel_name_page (s : string) :
  valid_identifier (trim s) ->
  rel_name (PAGES_DIR +:+ String "/" (page_file s)) = Some (page_file s) /\
  forall suf, rel_name ((PAGES_DIR +:+ String "/" (page_file s)) +:+ suf)
              = Some (page_file s +:+ suf).
Proof.
  intros [Hpat Hlen].
  destruct (getSafeFilePath_valid s Hpat Hlen) as [_ Hres].
  unfold rel_name, path_sep. rewrite Hres.
  assert (Hassoc : forall x, PAGES_DIR +:+ String "/" x = (PAGES_DIR +:+ "/") +:+ x).
  { intros x. rewrite append_assoc. reflexivity. }
  split.
  - rewrite (Hassoc (page_file s)). apply drop_prefix_append.
  - intros suf. rewrite (Hassoc (page_file s)), append_assoc. apply drop_prefix_append.
Qed.

(** The file that the operations on the page [s] look at. *)
Lemma file_at_page (s : string) (w : World) :
  valid_identifier (trim s) ->
  file_at w (PAGES_DIR +:+ String "/" (page_file s)) = files_of w !! page_file s.
Proof.
  intros Hv. destruct (rel_name_page s Hv) as [Hn _].
  unfold file_at, files_of. rewrite Hn. destruct (dir w); [reflexivity|].
  symmetry. apply lookup_empty.
Qed.

(** X1: the traversal check of [getSafeFilePath] never fires: an identifier
    is either refused with [INVALID_PAGE_ID], or it resolves to the file
    [<trimmed id>.json] of the storage directory. *)
Theorem path_traversal_unreachable (pageId : JSON) :
  getSafeFilePath pageId <> Err PATH_TRAVERSAL /\
  (forall e, getSafeFilePath pageId = Err e -> e = INVALID_PAGE_ID) /\
  (forall p, getSafeFilePath pageId = Ok p ->
             exists s, pageId = JStr s /\ p = PAGES_DIR +:+ String "/" (trim s +:+ ".json")).
Proof.
  destruct (getSafeFilePath_cases pageId) as [(s & -> & Hv & E) | E]; rewrite E.
  - split; [discriminate|]. split; [discriminate|].
    intros p [= <-]. exists s. split; reflexivity.
  - split; [discriminate|]. split; [|discriminate]. intros e [= <-]. reflexivity.
Qed.

(** X2: two identifiers share a file only when they are equal after
    trimming: distinct pages never collide on disk. *)
Theorem same_file_same_identifier (a b : string) (p : string) :
  getSafeFilePath (JStr a) = Ok p -> getSafeFilePath (JStr b) = Ok p -> trim a = trim b.
Proof.
  intros Ha Hb.
  destruct (getSafeFilePath_cases (JStr a)) as [(s & [= <-] & _ & E) | E];
    rewrite E in Ha; [|discriminate].
  destruct (getSafeFilePath_cases (JStr b)) as [(s' & [= <-] & _ & E') | E'];
    rewrite E' in Hb; [|discriminate].
  injection Ha as <-. injection Hb as Hb.
  apply page_file_inj. apply append_inj_prefix in Hb.
  injection Hb as Hb. symmetry. exact Hb.
Qed.

End FurtherPaths.

Lemma same_file_same_identifier_witness :
  trim " my-page " = trim "my-page".
Proof.
  apply (@same_file_same_identifier example_host " my-page " "my-page"
           "/app/src/data/pages/my-page.json"); reflexivity.
Defined.

(** ** Reading *)

Section FurtherReading.
Context {host : Host}.

(** What [readPage] gives for a well-formed identifier, by the file of the
    page. *)
Lemma readPage_file (s : string) (w : World) :
  valid_identifier (trim s) ->
  readPage (JStr s) w =
  match files_of w !! page_file s with
  | None => Err PAGE_NOT_FOUND
  | Some f =>
      match JSON_parse (content f) with
      | None => Err INVALID_JSON
      | Some page =>
          if is_null page then Err READ_ERROR
          else if truthy_opt (prop page "id") && truthy_opt (prop page "title")
               then Ok page
               else Err INVALID_PAGE_DATA
      end
  end.
Proof.
  intros Hv. destruct Hv as [Hpat Hlen].
  destruct (getSafeFilePath_valid s Hpat Hlen) as [E _].
  unfold readPage. rewrite E. unfold fs_readFile.
  fold (page_file s). rewrite file_at_page by (split; assumption).
  destruct (files_of w !! page_file s) as [f|]; [|reflexivity].
  cbn [fst]. unfold decode. destruct (JSON_parse (content f)) as [page|]; [|reflexivity].
  cbn [check_required REQUIRED_PAGE_FIELDS].
  destruct (is_null page); [reflexivity|].
  destruct (truthy_opt (prop page "id")); [|reflexivity].
  destruct (truthy_opt (prop page "title")); reflexivity.
Qed.

Lemma readPage_invalid (pageId : JSON) (w : World) :
  getSafeFilePath pageId = Err INVALID_PAGE_ID -> readPage pageId w = Err INVALID_PAGE_ID.
Proof. intros E. unfold readPage. rewrite E. reflexivity. Qed.

Lemma pageExists_file (s : string) (w : World) :
  valid_identifier (trim s) ->
  pageExists (JStr s) w = match files_of w !! page_file s with Some _ => true | None => false end.
Proof.
  intros [Hpat Hlen].
  destruct (getSafeFilePath_valid s Hpat Hlen) as [E _].
  unfold pageExists. rewrite E. unfold fs_access.
  fold (page_file s). rewrite file_at_page by (split; assumption).
  destruct (files_of w !! page_file s); reflexivity.
Qed.

Lemma pageExists_invalid (pageId : JSON) (w : World) :
  getSafeFilePath pageId = Err INVALID_PAGE_ID -> pageExists pageId w = false.
Proof. intros E. unfold pageExists. rewrite E. reflexivity. Qed.

(** What the operations on a page see of the store is the file of the
    page. *)
Lemma same_file_same_reading (pageId : JSON) (w1 w2 : World) :
  (forall s, pageId = JStr s -> files_of w1 !! page_file s = files_of w2 !! page_file s) ->
  readPage pageId w1 = readPage pageId w2 /\ pageExists pageId w1 = pageExists pageId w2.
Proof.
  intros H.
  destruct (getSafeFilePath_cases pageId) as [(s & -> & Hv & _) | E].
  - rewrite !readPage_file, !pageExists_file, (H s eq_refl) by assumption. split; reflexivity.
  - rewrite !readPage_invalid, !pageExists_invalid by assumption. split; reflexivity.
Qed.

(** X3: the result of [readPage], for a well-formed identifier, by the file
    [<trimmed id>.json]: [PAGE_NOT_FOUND] without the file, [INVALID_JSON]
    when its text does not parse, [READ_ERROR] when the text is [null],
    [INVALID_PAGE_DATA] when [id] or [title] is missing or falsy, and the
    parsed document otherwise. *)
Theorem readPage_outcomes (s : string) (w : World) :
  valid_identifier (trim s) ->
  match files_of w !! page_file s with
  | None => readPage (JStr s) w = Err PAGE_NOT_FOUND
  | Some f =>
      match JSON_parse (content f) with
      | None => readPage (JStr s) w = Err INVALID_JSON
      | Some JNull => readPage (JStr s) w = Err READ_ERROR
      | Some page =>
          if truthy_opt (prop page "id") && truthy_opt (prop page "title")
          then readPage (JStr s) w = Ok page
          else readPage (JStr s) w = Err INVALID_PAGE_DATA
      end
  end.
Proof.
  intros Hv. rewrite (readPage_file s w Hv).
  destruct (files_of w !! page_file s) as [f|]; [|reflexivity].
  destruct (JSON_parse (content f)) as [page|]; [|reflexivity].
  destruct page; cbn [is_null]; try reflexivity;
    destruct (truthy_opt _ && truthy_opt _); reflexivity.
Qed.

(** X4: [pageExists] tells that the file of the page is there: it is [false]
    exactly when [readPage] fails with [PAGE_NOT_FOUND] or with
    [INVALID_PAGE_ID], and [true] also for a file that [readPage] cannot
    read. *)
Theorem pageExists_false_iff (pageId : JSON) (w : World) :
  pageExists pageId w = false <->
  readPage pageId w = Err PAGE_NOT_FOUND \/ readPage pageId w = Err INVALID_PAGE_ID.
Proof.
  destruct (getSafeFilePath_cases pageId) as [(s & -> & Hv & _) | E].
  - rewrite readPage_file, pageExists_file by assumption.
    destruct (files_of w !! page_file s) as [f|].
    + split; [discriminate|].
      destruct (JSON_parse (content f)) as [page|]; [|intros [|]; discriminate].
      destruct (is_null page); [intros [|]; discriminate|].
      destruct (truthy_opt _ && truthy_opt _); intros [|]; discriminate.
    + split; [left; reflexivity | reflexivity].
  - rewrite readPage_invalid, pageExists_invalid by assumption.
    split; [right; reflexivity | reflexivity].
Qed.

End FurtherReading.

Lemma readPage_outcomes_witness :
  @readPage example_host (JStr " p1 ") (one_page_world []) = Ok example_stored.
Proof.
  exact (@readPage_outcomes example_host " p1 " (one_page_world []) ltac:(split; vm_compute; [reflexivity | lia])).
Defined.

(** ** Writing *)

Section FurtherWriting.
Context {host : Host}.

Lemma tmp_not_json (x y : string) : y +:+ ".tmp" <> x +:+ ".json".
Proof.
  intros E.
  assert (Hlen : String.length y = S (String.length x)).
  { apply (f_equal String.length) in E. rewrite !length_append in E.
    cbn [String.length] in E. lia. }
  assert (H1 : String.get (3 + String.length y) (y +:+ ".tmp") = Some "p"%char).
  { rewrite <- (append_correct2 y ".tmp" 3). reflexivity. }
  assert (H2 : String.get (4 + String.length x) (x +:+ ".json") = Some "n"%char).
  { rewrite <- (append_correct2 x ".json" 4). reflexivity. }
  rewrite E, Hlen in H1. change (3 + S (String.length x)) with (4 + String.length x) in H1.
  rewrite H2 in H1. discriminate.
Qed.

(** The name of a temp file is not the name of a page file. *)
Lemma temp_name_not_page (n hex : string) (s : string) :
  n +:+ "." +:+ hex +:+ ".tmp" <> page_file s.
Proof.
  unfold page_file. rewrite <- !append_assoc. apply tmp_not_json.
Qed.

(** A write that reaches the write sequence: its result, and the files
    after it. *)
Lemma writePage_io (pageId pageData : JSON) (w : World) (dest : string) (existing : option JSON) :
  write_reaches_io pageId pageData w dest existing ->
  let e := env w (clock w) in
  let final := build_final pageData existing (toISOString (time_now e)) in
  exists s m',
    pageId = JStr s /\ valid_identifier (trim s) /\
    writePage pageId pageData w
    = (match fault e with NoFault => Ok final | _ => Err WRITE_ERROR end,
       set_dir (tick (after_mkdir w)) m') /\
    (fault e = NoFault ->
       m' = <[page_file s := {| content := encode final; mode := FILE_PERMISSIONS |}]>
              (delete (page_file s +:+ "." +:+ randomHex e +:+ ".tmp") (files_of w))) /\
    (forall k, k <> page_file s -> k <> page_file s +:+ "." +:+ randomHex e +:+ ".tmp" ->
               m' !! k = files_of w !! k).
Proof.
  intros Hio e final. pose proof Hio as (Hreq & Hid & Hdest & Hex).
  destruct (getSafeFilePath_cases pageId) as [(s & -> & Hv & E) | E];
    rewrite E in Hdest; [|discriminate].
  injection Hdest as <-.
  destruct (rel_name_page s Hv) as [Hn Hsuf].
  destruct (dir_after_mkdir w) as (m & Hm & _ & Hm0).
  assert (Hfiles : m = files_of w) by exact Hm0.
  destruct (write_sequence_spec (PAGES_DIR +:+ String "/" (page_file s))
              (temp_path (PAGES_DIR +:+ String "/" (page_file s)) (randomHex e))
              (encode final) e (tick (snd (ensurePagesDir w))) m
              (page_file s) (page_file s +:+ "." +:+ randomHex e +:+ ".tmp"))
    as (m' & Hseq & Hdestf & Hframe & Htmp).
  { exact Hm. }
  { exact Hn. }
  { unfold temp_path. apply Hsuf. }
  { apply temp_name_fresh. }
  exists s, m'. split; [reflexivity|]. split; [exact Hv|].
  split.
  - rewrite (writePage_eval _ _ _ _ _ Hio). fold e. fold final. rewrite Hseq.
    unfold after_mkdir. destruct (fault e); reflexivity.
  - subst m. split.
    + intros Hf. rewrite Hf in Hdestf. apply map_eq. intros k.
      destruct (decide (k = page_file s)) as [->|Hk].
      { rewrite Hdestf. simplify_map_eq. reflexivity. }
      destruct (decide (k = page_file s +:+ "." +:+ randomHex e +:+ ".tmp")) as [->|Hk'].
      { rewrite Htmp by (right; left; exact Hf). simplify_map_eq. reflexivity. }
      rewrite Hframe by assumption. simplify_map_eq. reflexivity.
    + exact Hframe.
Qed.

Lemma files_of_set_dir (w : World) (m : gmap string File) : files_of (set_dir w m) = m.
Proof. reflexivity. Qed.

(** X5: after a [writePage] that returns, the storage directory is the one
    before with the file of the page holding the encoding of the returned
    document, with the permissions [0o640], and without the temp file of the
    write; no other file has changed. *)
Theorem writePage_success_store (pageId pageData : JSON) (w w' : World) (p : JSON) :
  writePage pageId pageData w = (Ok p, w') ->
  exists s,
    pageId = JStr s /\ valid_identifier (trim s) /\
    dir w' = Some (<[page_file s := {| content := encode p; mode := FILE_PERMISSIONS |}]>
                     (delete (page_file s +:+ "." +:+ randomHex (env w (clock w)) +:+ ".tmp")
                             (files_of w))) /\
    clock w' = S (clock w) /\ env w' = env w.
Proof.
  intros H.
  destruct (writePage_reaches _ _ _ _ _ H) as [(dest & existing & Hio) | (er & Her & _)];
    [|discriminate].
  destruct (writePage_io _ _ _ _ _ Hio) as (s & m' & -> & Hv & E & Hm' & _).
  rewrite E in H. destruct (fault (env w (clock w))) eqn:Hf; try discriminate.
  injection H as <- <-. exists s. split; [reflexivity|]. split; [exact Hv|].
  rewrite (Hm' eq_refl). split; [reflexivity|].
  unfold after_mkdir, ensurePagesDir, fs_mkdir_PAGES_DIR.
  destruct (dir w); split; reflexivity.
Qed.

(** A [writePage] does not touch the file of another page. *)
Lemma writePage_frame (s s' : string) (pageData : JSON) (w w' : World) (r : Result JSON) :
  writePage (JStr s) pageData w = (r, w') -> trim s' <> trim s ->
  files_of w' !! page_file s' = files_of w !! page_file s'.
Proof.
  intros H Hne.
  destruct (writePage_reaches _ _ _ _ _ H) as [(dest & existing & Hio) | (er & _ & _ & ->)];
    [|reflexivity].
  destruct (writePage_io _ _ _ _ _ Hio) as (s1 & m' & [= <-] & Hv & E & _ & Hframe).
  rewrite E in H. injection H as _ <-. rewrite files_of_set_dir.
  apply Hframe.
  - intros Heq. apply Hne. apply page_file_inj. exact Heq.
  - intros Heq. symmetry in Heq. exact (temp_name_not_page _ _ _ Heq).
Qed.

(** X6: whatever its outcome, a [writePage] leaves every other page as it
    is: a page whose trimmed identifier differs reads as before. *)
Theorem writePage_other_pages (s s' : string) (pageData : JSON) (w w' : World) (r : Result JSON) :
  writePage (JStr s) pageData w = (r, w') -> trim s' <> trim s ->
  readPage (JStr s') w' = readPage (JStr s') w /\
  pageExists (JStr s') w' = pageExists (JStr s') w.
Proof.
  intros H Hne. apply same_file_same_reading. intros s0 [= <-].
  exact (writePage_frame _ _ _ _ _ _ H Hne).
Qed.

(** X7: a [writePage] of valid data fails as [readPage] of the page fails,
    unless that is [PAGE_NOT_FOUND], and writes nothing: a file that cannot
    be read cannot be replaced. *)
Theorem writePage_fails_as_readPage (pageId pageData : JSON) (w : World) (e : Error) :
  required_fields_ok pageData -> prop pageData "id" = Some pageId ->
  readPage pageId w = Err e -> e <> PAGE_NOT_FOUND ->
  writePage pageId pageData w = (Err e, w).
Proof.
  intros Hreq Hid Hread Hne.
  destruct (required_fields_object _ Hreq) as (m & ->).
  unfold writePage. cbn [truthy is_object negb orb].
  rewrite (check_required_ok _ Hreq).
  unfold strict_eq_opt. rewrite Hid, strict_eq_refl. cbn [negb].
  unfold bind, lift.
  destruct (getSafeFilePath pageId) as [dest|er] eqn:Hdest.
  - unfold read_existing. rewrite Hread.
    destruct e; try reflexivity. contradiction.
  - unfold readPage in Hread. rewrite Hdest in Hread. injection Hread as <-. reflexivity.
Qed.




End FurtherWriting.

Lemma writePage_success_store_witness :
  let w := empty_world [(1700000000000%Z, NoFault)] in
  let w' := one_page_world [(1700000000000%Z, NoFault)] in
  exists s,
    JStr "p1" = JStr s /\ valid_identifier (trim s) /\
    dir w' = Some (<[page_file s := {| content := encode example_stored; mode := FILE_PERMISSIONS |}]>
                     (delete (page_file s +:+ "." +:+ randomHex (env w (clock w)) +:+ ".tmp")
                             (@files_of w))) /\
    clock w' = S (clock w) /\ env w' = env w.
Proof.
  intros w w'.
  apply (@writePage_success_store example_host (JStr "p1") example_doc w w' example_stored).
  vm_compute. reflexivity.
Defined.

Lemma writePage_other_pages_witness :
  let w' := snd (@writePage example_host (JStr "old") old_page dated_world) in
  @readPage example_host (JStr "undated") w' = @readPage example_host (JStr "undated") dated_world /\
  @pageExists example_host (JStr "undated") w' = @pageExists example_host (JStr "undated") dated_world.
Proof.
  intros w'.
  apply (@writePage_other_pages example_host "old" "undated" old_page dated_world w'
           (fst (@writePage example_host (JStr "old") old_page dated_world))).
  - vm_compute. reflexivity.
  - vm_compute. discriminate.
Defined.

Lemma writePage_fails_as_readPage_witness :
  @writePage example_host (JStr "p1") example_doc corrupt_world = (Err INVALID_JSON, corrupt_world).
Proof.
  apply (@writePage_fails_as_readPage example_host (JStr "p1") example_doc corrupt_world INVALID_JSON).
  - split; reflexivity.
  - reflexivity.
  - vm_compute. reflexivity.
  - discriminate.
Defined.


(** ** Deleting *)

Section FurtherDeleting.
Context {host : Host}.

(** What [deletePage] does for a well-formed identifier, by the file of the
    page and the failures. *)
Lemma deletePage_file (s : string) (secureDelete : bool) (e : DeleteEnv) (w : World) :
  valid_identifier (trim s) ->
  deletePage (JStr s) secureDelete e w =
  match files_of w !! page_file s with
  | None => (Throws (Coded PAGE_NOT_FOUND), w)
  | Some f =>
      if secureDelete then
        match delete_fault e with
        | NoDeleteFault => (Returns (JStr s), set_dir w (delete (page_file s) (files_of w)))
        | OverwriteFails None => (Throws DELETE_ERROR, w)
        | OverwriteFails (Some part) =>
            (Throws DELETE_ERROR,
             set_dir w (<[page_file s := {| content := part; mode := mode f |}]> (files_of w)))
        | SyncFails | UnlinkFails =>
            (Throws DELETE_ERROR,
             set_dir w (<[page_file s := {| content := randomBytes e (byte_length (content f));
                                            mode := mode f |}]> (files_of w)))
        end
      else
        match delete_fault e with
        | UnlinkFails => (Throws DELETE_ERROR, w)
        | _ => (Returns (JStr s), set_dir w (delete (page_file s) (files_of w)))
        end
  end.
Proof.
  intros Hv. pose proof Hv as [Hpat Hlen].
  destruct (getSafeFilePath_valid s Hpat Hlen) as [E _].
  destruct (rel_name_page s Hv) as [Hn _].
  unfold deletePage. rewrite E. fold (page_file s).
  unfold bind, fs_access, fs_stat_size, fs_writeFile, fs_sync, fs_unlink, ret, file_at, files_of.
  destruct w as [d c ev]. cbn [dir set_dir clock env]. rewrite Hn.
  destruct d as [m|]; [|rewrite lookup_empty; reflexivity].
  destruct (m !! page_file s) as [f|] eqn:Hf; [|reflexivity].
  destruct secureDelete.
  - destruct (delete_fault e) as [| [part|] | |];
      cbn [dir set_dir clock env]; rewrite ?Hn, ?Hf;
      repeat (simplify_map_eq; cbn [dir set_dir clock env content mode]);
      try reflexivity.
    unfold set_dir. cbn [dir clock env]. rewrite delete_insert_eq. reflexivity.
  - destruct (delete_fault e) as [| [part|] | |];
      cbn [dir set_dir clock env]; rewrite ?Hn, ?Hf; reflexivity.
Qed.

Lemma deletePage_invalid (pageId : JSON) (secureDelete : bool) (e : DeleteEnv) (w : World) :
  getSafeFilePath pageId = Err INVALID_PAGE_ID ->
  deletePage pageId secureDelete e w = (Throws (Coded INVALID_PAGE_ID), w).
Proof. intros E. unfold deletePage. rewrite E. reflexivity. Qed.

(** X9: deleting a page that exists, without an I/O failure, returns the
    identifier and removes the file of the page and nothing else; the page
    then does not exist, cannot be read, and a second delete reports
    [PAGE_NOT_FOUND] and changes nothing. *)
Theorem deletePage_removes (pageId : JSON) (secureDelete : bool) (e : DeleteEnv) (w : World) :
  pageExists pageId w = true -> delete_fault e = NoDeleteFault ->
  exists s w',
    pageId = JStr s /\
    deletePage pageId secureDelete e w = (Returns pageId, w') /\
    dir w' = Some (delete (page_file s) (files_of w)) /\
    readPage pageId w' = Err PAGE_NOT_FOUND /\
    pageExists pageId w' = false /\
    (forall sd e', deletePage pageId sd e' w' = (Throws (Coded PAGE_NOT_FOUND), w')).
Proof.
  intros Hex Hf.
  destruct (getSafeFilePath_cases pageId) as [(s & -> & Hv & _) | E];
    [|rewrite pageExists_invalid in Hex by assumption; discriminate].
  rewrite pageExists_file in Hex by assumption.
  destruct (files_of w !! page_file s) as [f|] eqn:Hfile; [|discriminate].
  exists s, (set_dir w (delete (page_file s) (files_of w))).
  split; [reflexivity|]. split.
  - rewrite deletePage_file, Hfile, Hf by assumption. destruct secureDelete; reflexivity.
  - split; [reflexivity|].
    assert (Hgone : files_of (set_dir w (delete (page_file s) (files_of w))) !! page_file s = None).
    { rewrite files_of_set_dir. apply lookup_delete_eq. }
    rewrite readPage_file, pageExists_file, Hgone by assumption.
    repeat split. intros sd e'. rewrite deletePage_file, Hgone by assumption. reflexivity.
Qed.

(** X10: deleting a page that [readPage] does not find, or whose identifier
    is invalid, throws the same error as [readPage] and changes nothing. *)
Theorem deletePage_absent (pageId : JSON) (secureDelete : bool) (e : DeleteEnv) (w : World)
        (er : Error) :
  readPage pageId w = Err er -> er = PAGE_NOT_FOUND \/ er = INVALID_PAGE_ID ->
  deletePage pageId secureDelete e w = (Throws (Coded er), w).
Proof.
  intros Hread Her.
  destruct (getSafeFilePath_cases pageId) as [(s & -> & Hv & _) | E].
  - rewrite readPage_file in Hread by assumption. rewrite deletePage_file by assumption.
    destruct (files_of w !! page_file s) as [f|]; [|congruence].
    exfalso. destruct (JSON_parse (content f)) as [page|]; [|destruct Her; congruence].
    destruct (is_null page); [destruct Her; congruence|].
    destruct (truthy_opt _ && truthy_opt _); destruct Her; congruence.
  - rewrite readPage_invalid in Hread by assumption. injection Hread as <-.
    apply deletePage_invalid. exact E.
Qed.

(** X11: whatever its outcome, a [deletePage] leaves every other page as it
    is. *)
Theorem deletePage_other_pages (s s' : string) (secureDelete : bool) (e : DeleteEnv)
        (w w' : World) (r : Outcome DeleteError JSON) :
  deletePage (JStr s) secureDelete e w = (r, w') -> trim s' <> trim s ->
  readPage (JStr s') w' = readPage (JStr s') w /\
  pageExists (JStr s') w' = pageExists (JStr s') w.
Proof.
  intros H Hne. apply same_file_same_reading. intros s0 [= <-].
  assert (Hk : page_file s' <> page_file s).
  { intros Heq. apply Hne. apply page_file_inj. exact Heq. }
  destruct (getSafeFilePath_cases (JStr s)) as [(s1 & [= <-] & Hv & _) | E].
  - rewrite deletePage_file in H by assumption.
    destruct (files_of w !! page_file s) as [f|]; [|injection H as _ <-; reflexivity].
    destruct secureDelete; destruct (delete_fault e) as [| [part|] | |];
      injection H as _ <-; rewrite ?files_of_set_dir; simplify_map_eq; reflexivity.
  - rewrite deletePage_invalid in H by assumption. injection H as _ <-. reflexivity.
Qed.

(** X12: a plain delete (without [secureDelete]) that throws has changed
    nothing. *)
Theorem deletePage_plain_failure (pageId : JSON) (e : DeleteEnv) (w w' : World) (er : DeleteError) :
  deletePage pageId false e w = (Throws er, w') -> w' = w.
Proof.
  intros H.
  destruct (getSafeFilePath_cases pageId) as [(s & -> & Hv & _) | E].
  - rewrite deletePage_file in H by assumption.
    destruct (files_of w !! page_file s) as [f|]; [|injection H as _ <-; reflexivity].
    destruct (delete_fault e) as [| [part|] | |]; try discriminate H.
    injection H as _ <-. reflexivity.
  - rewrite deletePage_invalid in H by assumption. injection H as _ <-. reflexivity.
Qed.

(** X13: a secure delete whose sync or unlink fails reports [DELETE_ERROR],
    and the file of the page is still there, holding the random bytes in
    place of the document: the page is lost although the delete failed. *)
Theorem secure_delete_failure (pageId : JSON) (e : DeleteEnv) (w : World) :
  pageExists pageId w = true ->
  delete_fault e = SyncFails \/ delete_fault e = UnlinkFails ->
  exists s f w',
    pageId = JStr s /\ files_of w !! page_file s = Some f /\
    deletePage pageId true e w = (Throws DELETE_ERROR, w') /\
    files_of w' !! page_file s
    = Some {| content := randomBytes e (byte_length (content f)); mode := mode f |} /\
    pageExists pageId w' = true.
Proof.
  intros Hex Hf.
  destruct (getSafeFilePath_cases pageId) as [(s & -> & Hv & _) | E];
    [|rewrite pageExists_invalid in Hex by assumption; discriminate].
  rewrite pageExists_file in Hex by assumption.
  destruct (files_of w !! page_file s) as [f|] eqn:Hfile; [|discriminate].
  exists s, f.
  exists (set_dir w (<[page_file s := {| content := randomBytes e (byte_length (content f));
                                         mode := mode f |}]> (files_of w))).
  split; [reflexivity|]. split; [exact Hfile|]. split.
  - rewrite deletePage_file, Hfile by assumption. destruct Hf as [-> | ->]; reflexivity.
  - rewrite pageExists_file, files_of_set_dir by assumption. simplify_map_eq. split; reflexivity.
Qed.

End FurtherDeleting.

Lemma deletePage_removes_witness :
  let w := one_page_world [] in
  exists s w',
    JStr "p1" = JStr s /\
    @deletePage example_host (JStr "p1") true quiet_delete w = (Returns (JStr "p1"), w') /\
    dir w' = Some (delete (page_file s) (files_of w)) /\
    @readPage example_host (JStr "p1") w' = Err PAGE_NOT_FOUND /\
    @pageExists example_host (JStr "p1") w' = false /\
    (forall sd e', @deletePage example_host (JStr "p1") sd e' w' = (Throws (Coded PAGE_NOT_FOUND), w')).
Proof.
  intros w.
  apply (@deletePage_removes example_host (JStr "p1") true quiet_delete w);
    vm_compute; reflexivity.
Defined.

Lemma deletePage_absent_witness :
  @deletePage example_host (JStr "p2") false quiet_delete (one_page_world [])
  = (Throws (Coded PAGE_NOT_FOUND), one_page_world []).
Proof.
  apply (@deletePage_absent example_host (JStr "p2") false quiet_delete (one_page_world [])
           PAGE_NOT_FOUND).
  - vm_compute. reflexivity.
  - left. reflexivity.
Defined.

Lemma deletePage_other_pages_witness :
  let e := failing_delete (OverwriteFails (Some "x")) in
  let w' := snd (@deletePage example_host (JStr "old") true e dated_world) in
  @readPage example_host (JStr "undated") w' = @readPage example_host (JStr "undated") dated_world /\
  @pageExists example_host (JStr "undated") w' = @pageExists example_host (JStr "undated") dated_world.
Proof.
  intros e w'.
  apply (@deletePage_other_pages example_host "old" "undated" true e dated_world w'
           (fst (@deletePage example_host (JStr "old") true e dated_world))).
  - vm_compute. reflexivity.
  - vm_compute. discriminate.
Defined.

Lemma deletePage_plain_failure_witness :
  snd (@deletePage example_host (JStr "p1") false (failing_delete UnlinkFails) (one_page_world []))
  = one_page_world [].
Proof.
  apply (@deletePage_plain_failure example_host (JStr "p1") (failing_delete UnlinkFails)
           (one_page_world []) _ DELETE_ERROR).
  vm_compute. reflexivity.
Defined.

Lemma secure_delete_failure_witness :
  let e := failing_delete UnlinkFails in
  let w := one_page_world [] in
  exists s f w',
    JStr "p1" = JStr s /\ files_of w !! page_file s = Some f /\
    @deletePage example_host (JStr "p1") true e w = (Throws DELETE_ERROR, w') /\
    files_of w' !! page_file s
    = Some {| content := randomBytes e (byte_length (content f)); mode := mode f |} /\
    @pageExists example_host (JStr "p1") w' = true.
Proof.
  intros e w.
  apply (@secure_delete_failure example_host (JStr "p1") e w).
  - vm_compute. reflexivity.
  - right. reflexivity.
Defined.

(** ** Export and import *)

Section FurtherExchange.
Context {host : Host}.

(** A page that [readPage] returns has its required fields. *)
Lemma readPage_required (pageId : JSON) (w : World) (page : JSON) :
  readPage pageId w = Ok page -> required_fields_ok page /\ page <> JNull.
Proof.
  destruct (getSafeFilePath_cases pageId) as [(s & -> & Hv & _) | E];
    [|rewrite readPage_invalid by assumption; discriminate].
  rewrite readPage_file by assumption.
  destruct (files_of w !! page_file s) as [f|]; [|discriminate].
  destruct (JSON_parse (content f)) as [v|]; [|discriminate].
  destruct (is_null v) eqn:Hnull; [discriminate|].
  destruct (truthy_opt (prop v "id")) eqn:Hid; [|discriminate].
  destruct (truthy_opt (prop v "title")) eqn:Htitle; [|discriminate].
  intros [= <-]. split; [split; assumption|]. intros ->. discriminate.
Qed.




End FurtherExchange.



Section FurtherImport.
Context {host : Host}.

Lemma importPage_eval (jsonData : JSON) (overwrite : bool) (w : World) :
  importPage jsonData overwrite w =
  match import_reads jsonData with
  | Err e => (Err e, w)
  | Ok pageData =>
      match check_required pageData REQUIRED_PAGE_FIELDS with
      | Err e => (Err e, w)
      | Ok _ =>
          match prop pageData "id" with
          | Some pageId =>
              if pageExists pageId w && negb overwrite then (Err PAGE_EXISTS, w)
              else writePage pageId pageData w
          | None => (Err INVALID_PAGE_DATA, w)
          end
      end
  end.
Proof.
  unfold importPage, import_reads, bind, ret, throw.
  destruct jsonData as [| b | n | text | l | m]; try reflexivity.
  - destruct (JSON_parse text) as [v|]; [|reflexivity].
    destruct (check_required v REQUIRED_PAGE_FIELDS); [|reflexivity].
    destruct (prop v "id"); [|reflexivity].
    destruct (pageExists _ w && negb overwrite); reflexivity.
  - destruct (check_required (JObj m) REQUIRED_PAGE_FIELDS); [|reflexivity].
    destruct (prop (JObj m) "id"); [|reflexivity].
    destruct (pageExists _ w && negb overwrite); reflexivity.
Qed.

Lemma check_required_codes (page : JSON) (e : Error) :
  check_required page REQUIRED_PAGE_FIELDS = Err e -> e = TypeError \/ e = INVALID_PAGE_DATA.
Proof.
  unfold REQUIRED_PAGE_FIELDS. cbn [check_required].
  repeat case_match; intros; simplify_eq; auto.
Qed.

(** The ways of an [importPage]: it is refused without any effect, or it is
    the [writePage] of the page data under its own [id]. *)
Lemma importPage_cases (jsonData : JSON) (overwrite : bool) (w w' : World) (r : Result JSON) :
  importPage jsonData overwrite w = (r, w') ->
  (w' = w /\ exists e, r = Err e /\
     In e [INVALID_JSON; INVALID_IMPORT_DATA; TypeError; INVALID_PAGE_DATA; PAGE_EXISTS] /\
     (e = PAGE_EXISTS -> overwrite = false)) \/
  (exists pageData pageId,
     import_reads jsonData = Ok pageData /\ required_fields_ok pageData /\
     prop pageData "id" = Some pageId /\
     (pageExists pageId w = false \/ overwrite = true) /\
     writePage pageId pageData w = (r, w')).
Proof.
  rewrite importPage_eval.
  destruct (import_reads jsonData) as [pageData|e] eqn:Hreads.
  2:{ intros [= <- <-]. left. split; [reflexivity|]. exists e. split; [reflexivity|].
      split; [|intros ->].
      - unfold import_reads in Hreads. repeat case_match; simplify_eq; simpl; auto.
      - unfold import_reads in Hreads. repeat case_match; simplify_eq. }
  destruct (check_required pageData REQUIRED_PAGE_FIELDS) as [[]|e] eqn:Hreq.
  2:{ intros [= <- <-]. left. split; [reflexivity|]. exists e. split; [reflexivity|].
      destruct (check_required_codes _ _ Hreq) as [-> | ->];
        (split; [simpl; auto 6 | discriminate]). }
  apply check_required_inv in Hreq.
  destruct (prop pageData "id") as [pageId|] eqn:Hid.
  2:{ intros [= <- <-]. left. split; [reflexivity|]. eexists. split; [reflexivity|].
      split; [simpl; auto 6 | discriminate]. }
  destruct (pageExists pageId w) eqn:Hex; destruct overwrite; cbn [andb negb].
  - intros H. right. exists pageData, pageId. do 3 (split; [first [assumption | reflexivity]|]).
    split; [first [left; first [assumption | reflexivity] | right; reflexivity] | exact H].
  - intros [= <- <-]. left. split; [reflexivity|]. eexists. split; [reflexivity|].
    split; [simpl; auto 6 | reflexivity].
  - intros H. right. exists pageData, pageId. do 3 (split; [first [assumption | reflexivity]|]).
    split; [first [left; first [assumption | reflexivity] | right; reflexivity] | exact H].
  - intros H. right. exists pageData, pageId. do 3 (split; [first [assumption | reflexivity]|]).
    split; [first [left; first [assumption | reflexivity] | right; reflexivity] | exact H].
Qed.


Lemma keeps_pages_refl (w : World) : keeps_pages w w.
Proof. intros s _. reflexivity. Qed.

Lemma keeps_pages_trans (w1 w2 w3 : World) :
  keeps_pages w1 w2 -> keeps_pages w2 w3 -> keeps_pages w1 w3.
Proof.
  intros H12 H23 s Hs. rewrite <- (H12 s Hs). apply H23. rewrite (H12 s Hs). exact Hs.
Qed.

Lemma keeps_pages_reading (w w' : World) (pageId : JSON) :
  keeps_pages w w' -> pageExists pageId w = true ->
  readPage pageId w' = readPage pageId w /\ pageExists pageId w' = true.
Proof.
  intros Hk Hex.
  destruct (getSafeFilePath_cases pageId) as [(s & -> & Hv & _) | E];
    [|rewrite pageExists_invalid in Hex by assumption; discriminate].
  assert (Hs : is_Some (files_of w !! page_file s)).
  { rewrite pageExists_file in Hex by assumption.
    destruct (files_of w !! page_file s); [eauto | discriminate]. }
  destruct (same_file_same_reading (JStr s) w' w) as [Hr He].
  { intros s0 [= <-]. exact (Hk s Hs). }
  rewrite Hr, He. split; [reflexivity | exact Hex].
Qed.

(** An import without [overwrite] keeps the files of the pages. *)
Lemma importPage_keeps (jsonData : JSON) (w w' : World) (r : Result JSON) :
  importPage jsonData false w = (r, w') -> keeps_pages w w'.
Proof.
  intros H.
  destruct (importPage_cases _ _ _ _ _ H)
    as [(-> & _) | (pageData & pageId & _ & _ & _ & [Hex | [=]] & Hw)];
    [apply keeps_pages_refl|].
  destruct (writePage_reaches _ _ _ _ _ Hw) as [(dest & existing & Hio) | (er & _ & _ & ->)];
    [|apply keeps_pages_refl].
  destruct (writePage_io _ _ _ _ _ Hio) as (s & m' & -> & Hv & _).
  intros s' Hs'. apply (writePage_frame _ _ _ _ _ _ Hw).
  intros Heq. rewrite pageExists_file in Hex by assumption.
  unfold page_file in Hs'. rewrite Heq in Hs'. fold (page_file s) in Hs'.
  destruct (files_of w !! page_file s); [discriminate | destruct Hs' as [x [=]]].
Qed.

(** X17: an [importPage] without [overwrite] never changes a page of the
    store: whatever it is given and whatever its outcome, a page that
    existed still exists and reads as before. *)
Theorem importPage_keeps_existing (jsonData pageId : JSON) (w w' : World) (r : Result JSON) :
  importPage jsonData false w = (r, w') -> pageExists pageId w = true ->
  readPage pageId w' = readPage pageId w /\ pageExists pageId w' = true.
Proof.
  intros H Hex. exact (keeps_pages_reading _ _ _ (importPage_keeps _ _ _ _ H) Hex).
Qed.






(** ** Restore without overwrite *)

Lemma restore_loop_keeps (pages : list JSON) :
  forall results w r w',
    restore_loop pages false results w = (r, w') -> keeps_pages w w'.
Proof.
  induction pages as [|page rest IH]; intros results w r w'.
  - intros [= <- <-]. apply keeps_pages_refl.
  - cbn [restore_loop]. unfold bind at 1. unfold try_catch, bind at 1.
    destruct (importPage page false w) as [[p|er] w1] eqn:Himp;
      pose proof (importPage_keeps _ _ _ _ Himp) as Hk.
    + unfold ret at 1. intros H. exact (keeps_pages_trans _ _ _ Hk (IH _ _ _ _ H)).
    + destruct er; unfold ret, throw;
        try (intros H; exact (keeps_pages_trans _ _ _ Hk (IH _ _ _ _ H)));
        (destruct (is_null page);
         [intros [= <- <-]; exact Hk
         |intros H; exact (keeps_pages_trans _ _ _ Hk (IH _ _ _ _ H))]).
Qed.

(** X21: a [restoreFromBackup] without [overwrite] never changes a page of
    the store: whatever the backup text and whatever its outcome, a page
    that existed still exists and reads as before. *)
Theorem restore_keeps_existing (backupJson : string) (pageId : JSON) (w w' : World)
        (r : Result RestoreResults) :
  restoreFromBackup backupJson false w = (r, w') -> pageExists pageId w = true ->
  readPage pageId w' = readPage pageId w /\ pageExists pageId w' = true.
Proof.
  intros H Hex. apply keeps_pages_reading; [|exact Hex].
  revert H. unfold restoreFromBackup, throw.
  destruct (JSON_parse backupJson) as [backup|]; [|intros [= <- <-]; apply keeps_pages_refl].
  destruct (is_null backup); [intros [= <- <-]; apply keeps_pages_refl|].
  destruct (prop backup "pages") as [[| | | | pages |]|];
    try (intros [= <- <-]; apply keeps_pages_refl).
  destruct (negb (truthy_opt (prop backup "version")));
    [intros [= <- <-]; apply keeps_pages_refl|].
  apply restore_loop_keeps.
Qed.

End FurtherImport.


Lemma importPage_keeps_existing_witness :
  let w := one_page_world [] in
  let w' := snd (@importPage example_host numbered_page false w) in
  @readPage example_host (JStr "p1") w' = @readPage example_host (JStr "p1") w /\
  @pageExists example_host (JStr "p1") w' = true.
Proof.
  intros w w'.
  apply (@importPage_keeps_existing example_host numbered_page (JStr "p1") w w'
           (fst (@importPage example_host numbered_page false w))).
  - vm_compute. reflexivity.
  - vm_compute. reflexivity.
Defined.




Lemma restore_keeps_existing_witness :
  let w := one_page_world [] in
  let w' := snd (@restoreFromBackup example_host (bundle_text [example_doc2; numbered_page]) false w) in
  @readPage example_host (JStr "p1") w' = @readPage example_host (JStr "p1") w /\
  @pageExists example_host (JStr "p1") w' = true.
Proof.
  intros w w'.
  apply (@restore_keeps_existing example_host (bundle_text [example_doc2; numbered_page])
           (JStr "p1") w w'
           (fst (@restoreFromBackup example_host (bundle_text [example_doc2; numbered_page]) false w))).
  - vm_compute. reflexivity.
  - vm_compute. reflexivity.
Defined.

(** ** Backup *)

Section FurtherBackup.
Context {host : Host}.

(** What [backupAllPages] computes. *)
Lemma backupAllPages_eval (w : World) :
  backupAllPages w
  = (Ok (stringify (backup_object (toISOString (time_now (env w (clock w)))) (stored_pages w))),
     tick (after_mkdir w)).
Proof.
  unfold backupAllPages, try_catch, bind, next_env, ret, after_mkdir,
    ensurePagesDir, fs_mkdir_PAGES_DIR, fs_readdir_PAGES_DIR.
  unfold stored_pages, dir_entries.
  destruct (dir w) as [m|] eqn:E; cbn [snd dir set_dir].
  - rewrite E. reflexivity.
  - rewrite map_to_list_empty. reflexivity.
Qed.

Lemma stored_pages_sound (w : World) (page : JSON) :
  page ∈ stored_pages w <->
  exists file, file ∈ dir_entries w /\ endsWith file ".json" = true /\
               readPage (JStr (basename_json file)) w = Ok page.
Proof.
  unfold stored_pages, backup_pages. rewrite list_elem_of_In, in_flat_map. split.
  - intros (file & Hfile & Hin). apply filter_In in Hfile as [Hentry Hjson].
    exists file. split; [apply list_elem_of_In; exact Hentry|]. split; [exact Hjson|].
    destruct (readPage (JStr (basename_json file)) w) as [p|e]; [|destruct Hin].
    destruct Hin as [<- | []]. reflexivity.
  - intros (file & Hentry & Hjson & Hread). exists file. split.
    + apply filter_In. split; [apply list_elem_of_In; exact Hentry | exact Hjson].
    + rewrite Hread. left. reflexivity.
Qed.

Lemma stored_pages_readable (w : World) :
  Forall (fun page => wf_json page /\ page <> JNull) (stored_pages w).
Proof.
  apply Forall_forall. intros page Hin. apply stored_pages_sound in Hin as (file & _ & _ & Hread).
  split; [exact (readPage_wf _ _ _ Hread) | apply (readPage_required _ _ _ Hread)].
Qed.

Lemma backup_object_wf (now : string) (pages : list JSON) :
  (Z.of_nat (length pages) <= MAX_SAFE_INTEGER)%Z -> Forall wf_json pages ->
  wf_json (backup_object now pages).
Proof.
  intros Hlen Hpages. unfold backup_object. apply wf_json_obj. split.
  - apply distinct_NoDup. reflexivity.
  - repeat constructor; cbn [snd].
    + unfold safe_integer. apply Z.leb_le. rewrite Z.abs_eq by lia. exact Hlen.
    + apply wf_json_arr. exact Hpages.
Qed.


(** X23: a backup made by [backupAllPages] is always restored with a
    result: into any store, with or without [overwrite], [restoreFromBackup]
    returns, and every page of the backup is counted as restored, skipped or
    failed. *)
Theorem restore_of_backup_returns (w w1 w2 : World) (overwrite : bool) (text : string) :
  (Z.of_nat (length (stored_pages w)) <= MAX_SAFE_INTEGER)%Z ->
  backupAllPages w = (Ok text, w1) ->
  exists results w3,
    restoreFromBackup text overwrite w2 = (Ok results, w3) /\
    total results = length (stored_pages w) /\ accounted results.
Proof.
  intros Hlen H. rewrite backupAllPages_eval in H. injection H as <- _.
  eapply restoreFromBackup_accounts.
  - apply JSON_parse_stringify. apply backup_object_wf; [exact Hlen|].
    eapply Forall_impl; [apply stored_pages_readable|]. intros page [H _]. exact H.
  - reflexivity.
  - reflexivity.
  - eapply Forall_impl; [apply stored_pages_readable|]. intros page [_ H]. exact H.
Qed.

(** ** Listing and search *)



(** X25: [searchPages] returns the listing when the query is absent, not a
    string, or blank; else, when the [id], [title] and [slug] of the listed
    pages are strings or missing, it returns the pages of the listing, in
    the order of the listing, of which one of the three contains the
    trimmed query without regard to case. *)
Theorem search_filters_listing (query : option JSON) (w w' : World) (pages : list Summary) :
  listPages w = (Ok pages, w') -> Forall searchable pages ->
  searchPages query w
  = (Ok (match query with
         | Some (JStr q) =>
             if (trim q =? "")%string then pages
             else List.filter (summary_matches (trim (toLowerCase q))) pages
         | _ => pages
         end), w').
Proof.
  intros Hlist Hsearchable.
  destruct query as [[| b | n | q | l | m]|];
    try (rewrite searchPages_no_query by discriminate; exact Hlist).
  destruct (trim q =? "")%string eqn:Hq.
  - apply String.eqb_eq in Hq.
    rewrite searchPages_no_query; [exact Hlist|]. intros s [= <-]. exact Hq.
  - apply String.eqb_neq in Hq. exact (searchPages_query _ _ _ _ Hq Hlist Hsearchable).
Qed.

End FurtherBackup.


Lemma restore_of_backup_returns_witness :
  let text := stringify (backup_object (toISOString 0) (@stored_pages example_host dated_world)) in
  exists results w3,
    @restoreFromBackup example_host text true (empty_world []) = (Ok results, w3) /\
    total results = length (@stored_pages example_host dated_world) /\ accounted results.
Proof.
  intros text.
  apply (@restore_of_backup_returns example_host dated_world
           (snd (@backupAllPages example_host dated_world)) (empty_world []) true text).
  - vm_compute. discriminate.
  - vm_compute. reflexivity.
Defined.


Lemma search_filters_listing_witness :
  @searchPages example_host (Some (JStr " OLD ")) dated_world
  = (Ok (List.filter (summary_matches (trim (toLowerCase " OLD ")))
           [summary_of undated_page; summary_of old_page]), dated_world).
Proof.
  apply (@search_filters_listing example_host (Some (JStr " OLD ")) dated_world dated_world
           [summary_of undated_page; summary_of old_page]).
  - vm_compute. reflexivity.
  - repeat constructor.
Defined.

(** ** Validators and slugs *)

Section FurtherValidators.
Context {host : Host}.

(** X26: [pageIdValidator] accepts exactly the identifiers that
    [getSafeFilePath] resolves: its value is the trimmed identifier, which
    names the same file, and what it refuses [getSafeFilePath] refuses with
    [INVALID_PAGE_ID]. *)
Theorem pageIdValidator_agrees (pageId : JSON) :
  match Validators.pageIdValidator pageId with
  | Valid v =>
      exists s, pageId = JStr s /\ v = JStr (trim s) /\
                getSafeFilePath pageId = Ok (PAGES_DIR +:+ String "/" (trim s +:+ ".json")) /\
                getSafeFilePath v = getSafeFilePath pageId
  | Invalid _ => getSafeFilePath pageId = Err INVALID_PAGE_ID
  end.
Proof.
  destruct pageId as [| b | n | s | l | m]; try reflexivity.
  unfold Validators.pageIdValidator.
  change (truthy (JStr s)) with (negb (s =? "")%string).
  destruct (s =? "")%string eqn:Hs; cbn [negb].
  { rewrite getSafeFilePath_string, Hs. reflexivity. }
  change 100 with MAX_PAGE_ID_LENGTH.
  destruct ((String.length (trim s) =? 0)%nat || (MAX_PAGE_ID_LENGTH <? String.length (trim s))%nat)
    eqn:Hlen.
  { rewrite getSafeFilePath_string, Hs, Hlen. reflexivity. }
  change (Validators.PATTERNS_PAGE_ID_test (trim s)) with (PAGE_ID_PATTERN_test (trim s)).
  destruct (PAGE_ID_PATTERN_test (trim s)) eqn:Hpat; cbn [negb].
  2:{ rewrite getSafeFilePath_string, Hs, Hlen, Hpat. reflexivity. }
  apply orb_false_elim in Hlen as [_ Hlen]. apply Nat.ltb_ge in Hlen.
  destruct (getSafeFilePath_valid s Hpat Hlen) as [E _].
  exists s. split; [reflexivity|]. split; [reflexivity|]. split; [exact E|].
  assert (Htrim : trim (trim s) = trim s).
  { apply trim_id. unfold PAGE_ID_PATTERN_test in Hpat. apply andb_prop in Hpat. apply Hpat. }
  destruct (getSafeFilePath_valid (trim s)) as [E' _].
  { rewrite Htrim. exact Hpat. }
  { rewrite Htrim. exact Hlen. }
  rewrite E, E', Htrim. reflexivity.
Qed.

End FurtherValidators.

Lemma lower_char_not_upper (c : ascii) : in_range 65 90 (lower_char c) = false.
Proof. destruct c as [[] [] [] [] [] [] [] []]; reflexivity. Qed.

Lemma slug_kept_cases (c : ascii) :
  slug_kept c = true -> in_range 65 90 c = false ->
  slug_separator c = true \/ (slug_separator c = false /\ is_slug_char c = true).
Proof.
  destruct c as [[] [] [] [] [] [] [] []]; intros H1 H2;
    try discriminate H1; try discriminate H2;
    first [left; reflexivity | right; split; reflexivity].
Qed.

Lemma is_slug_char_facts (c : ascii) :
  is_slug_char c = true ->
  lower_char c = c /\ slug_kept c = true /\ slug_separator c = false /\
  Ascii.eqb c "-" = false /\ is_id_char c = true.
Proof.
  destruct c as [[] [] [] [] [] [] [] []]; intros H; try discriminate H; repeat split.
Qed.

Lemma string_forallb_trimStart (f : ascii -> bool) (s : string) :
  string_forallb f s = true -> string_forallb f (trimStart s) = true.
Proof.
  induction s as [|c s IH]; [reflexivity|]. cbn [trimStart]. intros H.
  destruct (is_js_space c); [|exact H].
  cbn [string_forallb] in H. apply andb_prop in H as [_ H]. exact (IH H).
Qed.

Lemma string_forallb_trimEnd (f : ascii -> bool) (s : string) :
  string_forallb f s = true -> string_forallb f (trimEnd s) = true.
Proof.
  induction s as [|c s IH]; [reflexivity|]. cbn [trimEnd string_forallb]. intros H.
  apply andb_prop in H as [Hc H]. specialize (IH H).
  destruct (trimEnd s) as [|c' r'].
  - destruct (is_js_space c); [reflexivity|]. cbn [string_forallb]. rewrite Hc. reflexivity.
  - cbn [string_forallb] in IH |- *. rewrite Hc. exact IH.
Qed.

Lemma string_forallb_trim (f : ascii -> bool) (s : string) :
  string_forallb f s = true -> string_forallb f (trim s) = true.
Proof. intros H. unfold trim. apply string_forallb_trimEnd, string_forallb_trimStart, H. Qed.

Lemma toLowerCase_no_upper (s : string) :
  string_forallb (fun c => negb (in_range 65 90 c)) (toLowerCase s) = true.
Proof.
  induction s as [|c s IH]; [reflexivity|]. cbn [toLowerCase string_forallb].
  rewrite lower_char_not_upper, IH. reflexivity.
Qed.

(** After the removal, every character is a separator or of [[a-z0-9]]. *)
Lemma replace_runs_spaced (s : string) (in_run : bool) :
  string_forallb (fun c => negb (in_range 65 90 c)) s = true ->
  spaced in_run (replace_runs slug_separator "-" in_run (remove_outside slug_kept s)) = true.
Proof.
  revert in_run. induction s as [|c s IH]; intros in_run H; [reflexivity|].
  cbn [string_forallb] in H. apply andb_prop in H as [Hc H]. apply negb_true_iff in Hc.
  cbn [remove_outside]. destruct (slug_kept c) eqn:Hk; [|exact (IH in_run H)].
  cbn [replace_runs].
  destruct (slug_kept_cases c Hk Hc) as [Hsep | [Hsep Hchar]]; rewrite Hsep.
  - destruct in_run; [exact (IH true H)|].
    cbn [spaced]. change (is_slug_char "-") with false. change (Ascii.eqb "-" "-") with true.
    cbv iota. cbn [negb andb]. exact (IH true H).
  - cbn [spaced]. rewrite Hchar. exact (IH false H).
Qed.

Lemma spaced_strip_leading (s : string) (b : bool) :
  spaced b s = true -> spaced true (strip_leading "-" s) = true.
Proof.
  destruct s as [|c r]; [reflexivity|]. cbn [spaced strip_leading].
  destruct (is_slug_char c) eqn:Hc.
  - destruct (is_slug_char_facts c Hc) as (_ & _ & _ & -> & _). cbn [spaced].
    rewrite Hc. exact (fun H => H).
  - destruct (Ascii.eqb c "-"); [|discriminate].
    intros H. apply andb_prop in H as [_ H].
    destruct r as [|c' r']; [reflexivity|]. cbn [strip_leading].
    cbn [spaced] in H. destruct (is_slug_char c') eqn:Hc'.
    + destruct (is_slug_char_facts c' Hc') as (_ & _ & _ & -> & _). cbn [spaced].
      rewrite Hc'. exact H.
    + destruct (Ascii.eqb c' "-"); discriminate.
Qed.

Lemma spaced_strip_trailing (s : string) (b : bool) :
  spaced b s = true ->
  strip_trailing "-" s = "" \/ slug_from (negb b) (strip_trailing "-" s) = true.
Proof.
  revert b. induction s as [|c r IH]; intros b; [left; reflexivity|].
  cbn [spaced strip_trailing]. destruct (is_slug_char c) eqn:Hc.
  - destruct (is_slug_char_facts c Hc) as (_ & _ & _ & Hh & _). intros H. right.
    destruct (IH false H) as [E | E].
    + rewrite E, Hh. cbn [slug_from]. rewrite Hc. reflexivity.
    + destruct (strip_trailing "-" r) as [|c' r'] eqn:Er.
      * rewrite Hh. cbn [slug_from]. rewrite Hc. reflexivity.
      * cbn [slug_from]. rewrite Hc. exact E.
  - destruct (Ascii.eqb c "-") eqn:Hh; [|discriminate].
    intros H. apply andb_prop in H as [Hb H]. apply negb_true_iff in Hb. subst b.
    destruct (IH true H) as [E | E].
    + left. rewrite E. reflexivity.
    + right. destruct (strip_trailing "-" r) as [|c' r'] eqn:Er; [discriminate E|].
      cbn [slug_from negb]. rewrite Hc, Hh. exact E.
Qed.

Lemma slug_or_hyphen_facts (c : ascii) :
  is_slug_char c || Ascii.eqb c "-" = true ->
  lower_char c = c /\ is_id_char c = true /\ slug_kept c = true.
Proof.
  destruct c as [[] [] [] [] [] [] [] []]; intros H; try discriminate H; repeat split.
Qed.

Lemma slug_from_chars (s : string) (a : bool) :
  slug_from a s = true ->
  string_forallb (fun c => is_slug_char c || Ascii.eqb c "-") s = true.
Proof.
  revert a. induction s as [|c r IH]; intros a; [reflexivity|].
  cbn [slug_from string_forallb]. destruct (is_slug_char c); cbn [orb andb].
  - apply IH.
  - destruct (Ascii.eqb c "-"); [|discriminate]. intros H. apply andb_prop in H as [_ H].
    exact (IH _ H).
Qed.

Lemma toLowerCase_slug (s : string) :
  string_forallb (fun c => is_slug_char c || Ascii.eqb c "-") s = true -> toLowerCase s = s.
Proof.
  induction s as [|c r IH]; [reflexivity|]. cbn [string_forallb toLowerCase]. intros H.
  apply andb_prop in H as [Hc H]. destruct (slug_or_hyphen_facts c Hc) as (-> & _).
  rewrite (IH H). reflexivity.
Qed.

Lemma slug_id_chars (s : string) :
  string_forallb (fun c => is_slug_char c || Ascii.eqb c "-") s = true ->
  string_forallb is_id_char s = true.
Proof.
  induction s as [|c r IH]; [reflexivity|]. cbn [string_forallb]. intros H.
  apply andb_prop in H as [Hc H]. destruct (slug_or_hyphen_facts c Hc) as (_ & -> & _).
  exact (IH H).
Qed.

Lemma remove_outside_slug (s : string) :
  string_forallb (fun c => is_slug_char c || Ascii.eqb c "-") s = true ->
  remove_outside slug_kept s = s.
Proof.
  induction s as [|c r IH]; [reflexivity|]. cbn [string_forallb remove_outside]. intros H.
  apply andb_prop in H as [Hc H]. destruct (slug_or_hyphen_facts c Hc) as (_ & _ & ->).
  rewrite (IH H). reflexivity.
Qed.

Lemma replace_runs_slug (s : string) (a in_run : bool) :
  slug_from a s = true -> (in_run = true -> a = false) ->
  replace_runs slug_separator "-" in_run s = s.
Proof.
  revert a in_run. induction s as [|c r IH]; intros a in_run; [reflexivity|].
  cbn [slug_from replace_runs]. destruct (is_slug_char c) eqn:Hc.
  - destruct (is_slug_char_facts c Hc) as (_ & _ & -> & _). intros H _.
    rewrite (IH true false H); [reflexivity | discriminate].
  - destruct (Ascii.eqb c "-") eqn:Hh; [|discriminate].
    apply Ascii.eqb_eq in Hh. subst c. intros H Hrun.
    apply andb_prop in H as [Ha H]. subst a.
    change (slug_separator "-") with true. cbv iota.
    destruct in_run; [discriminate (Hrun eq_refl)|].
    rewrite (IH false true H); reflexivity.
Qed.

Lemma strip_leading_slug (s : string) : slug_from false s = true -> strip_leading "-" s = s.
Proof.
  destruct s as [|c r]; [reflexivity|]. cbn [slug_from strip_leading].
  destruct (is_slug_char c) eqn:Hc.
  - destruct (is_slug_char_facts c Hc) as (_ & _ & _ & -> & _). reflexivity.
  - destruct (Ascii.eqb c "-"); discriminate.
Qed.

Lemma strip_trailing_slug (s : string) (a : bool) :
  slug_from a s = true -> strip_trailing "-" s = s.
Proof.
  revert a. induction s as [|c r IH]; intros a; [reflexivity|].
  cbn [slug_from strip_trailing]. destruct (is_slug_char c) eqn:Hc.
  - destruct (is_slug_char_facts c Hc) as (_ & _ & _ & -> & _). intros H.
    rewrite (IH true H). destruct r; reflexivity.
  - destruct (Ascii.eqb c "-"); [|discriminate]. intros H. apply andb_prop in H as [_ H].
    rewrite (IH false H). destruct r; [discriminate H | reflexivity].
Qed.

(** A string that matches the pattern of slugs is its own slug. *)
Lemma generateSlug_fixed (s : string) :
  Validators.PATTERNS_SLUG_test s = true -> Routes.generateSlug s = s.
Proof.
  unfold Validators.PATTERNS_SLUG_test. intros H.
  pose proof (slug_from_chars _ _ H) as Hchars.
  unfold Routes.generateSlug, strip_hyphens.
  rewrite (toLowerCase_slug _ Hchars), (trim_id _ (slug_id_chars _ Hchars)),
    (remove_outside_slug _ Hchars), (replace_runs_slug _ false false H) by discriminate.
  rewrite (strip_leading_slug _ H). exact (strip_trailing_slug _ _ H).
Qed.

Lemma generateSlug_slug (title : string) :
  Routes.generateSlug title = "" \/
  Validators.PATTERNS_SLUG_test (Routes.generateSlug title) = true.
Proof.
  unfold Routes.generateSlug, strip_hyphens, Validators.PATTERNS_SLUG_test.
  apply (spaced_strip_trailing _ true).
  apply (spaced_strip_leading _ false).
  apply replace_runs_spaced.
  apply string_forallb_trim, toLowerCase_no_upper.
Qed.

(** X27: the slug that [generateSlug] makes of a title is empty or matches
    the pattern of slugs, [/^[a-z0-9]+(?:-[a-z0-9]+)*$/]. *)
Theorem generateSlug_well_formed (title : string) :
  Routes.generateSlug title = "" \/
  Validators.PATTERNS_SLUG_test (Routes.generateSlug title) = true.
Proof. exact (generateSlug_slug title). Qed.

(** X28: [generateSlug] is idempotent, and the two functions of that name
    agree on strings: the slug of a slug is the slug itself. *)
Theorem generateSlug_idempotent (title : string) :
  Routes.generateSlug (Routes.generateSlug title) = Routes.generateSlug title /\
  Validators.generateSlug (JStr title) = Routes.generateSlug title.
Proof.
  split.
  - destruct (generateSlug_slug title) as [-> | H]; [reflexivity|].
    exact (generateSlug_fixed _ H).
  - unfold Validators.generateSlug, Routes.generateSlug. cbn [truthy].
    destruct title; reflexivity.
Qed.

(** X29: [slugValidator] accepts every slug that [generateSlug] makes, as it
    is, unless it is longer than 150 characters; the empty slug it takes for
    no slug. *)
Theorem slugValidator_accepts_generated (title : string) :
  Validators.slugValidator (Some (JStr (Routes.generateSlug title)))
  = if (Routes.generateSlug title =? "")%string then Valid JNull
    else if (150 <? String.length (Routes.generateSlug title))%nat
         then Invalid "Slug must not exceed 150 characters"
         else Valid (JStr (Routes.generateSlug title)).
Proof.
  unfold Validators.slugValidator. cbn [truthy_opt truthy].
  destruct (generateSlug_slug title) as [-> | H]; [reflexivity|].
  destruct (Routes.generateSlug title =? "")%string eqn:He; [reflexivity|]. cbn [negb].
  pose proof (slug_from_chars _ _ H) as Hchars.
  rewrite (trim_id _ (slug_id_chars _ Hchars)), (toLowerCase_slug _ Hchars), H.
  reflexivity.
Qed.
